(** * pylon: admittance matrices, linearised models and power-flow results

    A shallow embedding of [pylon/case.py] (classes [Bus], [Branch], [Case])
    and of [make_susceptance_matrix] and [make_admittance_matrix] from
    [pylon/routine/y.py].

    Numbers.  Python floats and numpy [float64]/[complex128] values are
    idealised as real and complex numbers over [R]; rounding and overflow
    are outside the model.  What is kept of IEEE arithmetic is the one
    behaviour the program can reach without rounding: an array division by
    zero does not raise, it yields [inf] or [NaN].  Both are lumped in one
    value [NonFinite], which every arithmetic operation propagates; an
    equation with [NonFinite] on a side says that the other side is not a
    finite number either, nothing more.

    Arrays are lists, [scipy.sparse] matrices are coordinate lists whose
    duplicate entries add up, exceptions are [None]. *)

From Stdlib Require Import String List Arith Lia Bool Reals Lra.
From Stdlib Require Import Permutation Sorted.
Import ListNotations.
Local Open Scope R_scope.

(* ================================================================== *)
(** ** Complex numbers *)

Record C : Set := mkC { Re : R; Im : R }.

Definition C0 : C := mkC 0 0.
Definition C1 : C := mkC 1 0.
Definition Ci : C := mkC 0 1.
Definition RtoC (a : R) : C := mkC a 0.

Definition Cadd (a b : C) : C := mkC (Re a + Re b) (Im a + Im b).
Definition Cneg (a : C) : C := mkC (- Re a) (- Im a).
Definition Cmul (a b : C) : C :=
  mkC (Re a * Re b - Im a * Im b) (Re a * Im b + Im a * Re b).
Definition Cconj (a : C) : C := mkC (Re a) (- Im a).
Definition Cnorm2 (a : C) : R := Re a * Re a + Im a * Im a.
Definition Cdiv (a b : C) : C :=
  mkC ((Re a * Re b + Im a * Im b) / Cnorm2 b)
      ((Im a * Re b - Re a * Im b) / Cnorm2 b).
Definition Cabs (a : C) : R := sqrt (Cnorm2 a).
Definition Cexp (a : C) : C :=
  mkC (exp (Re a) * cos (Im a)) (exp (Re a) * sin (Im a)).

(** [numpy.angle]: the argument of a complex number, in (-PI, PI]. *)
Definition Cangle (a : C) : R :=
  if Rlt_dec 0 (Re a) then atan (Im a / Re a)
  else if Rlt_dec (Re a) 0 then
    if Rle_dec 0 (Im a) then atan (Im a / Re a) + PI
    else atan (Im a / Re a) - PI
  else if Rlt_dec 0 (Im a) then PI / 2
  else if Rlt_dec (Im a) 0 then - (PI / 2)
  else 0.

Definition Ceq_dec (a b : C) : {a = b} + {a <> b}.
Proof.
  destruct a as [a1 a2], b as [b1 b2].
  destruct (Req_dec_T a1 b1) as [E1|N1].
  - destruct (Req_dec_T a2 b2) as [E2|N2].
    + left; congruence.
    + right; congruence.
  - right; congruence.
Defined.

(** Python's [a != b] on floats. *)
Definition Rneb (a b : R) : bool := if Req_dec_T a b then false else true.

(* ================================================================== *)
(** ** Values that may be [inf] or [NaN] *)

Inductive ext (A : Type) : Type :=
| Fin (a : A)
| NonFinite.
Arguments Fin {A} a.
Arguments NonFinite {A}.

Definition lift1 {A B : Type} (f : A -> B) (x : ext A) : ext B :=
  match x with Fin a => Fin (f a) | NonFinite => NonFinite end.

Definition lift2 {A B D : Type} (f : A -> B -> D) (x : ext A) (y : ext B)
  : ext D :=
  match x, y with
  | Fin a, Fin b => Fin (f a b)
  | _, _ => NonFinite
  end.

(** An entry of a numpy array; real arrays are read as complex ones with a
    zero imaginary part, which is what numpy does where the two meet. *)
Definition num : Type := ext C.

Definition ofR (a : R) : num := Fin (RtoC a).
Definition of_bool (b : bool) : num := if b then Fin C1 else Fin C0.
Definition n0 : num := Fin C0.
Definition n1 : num := Fin C1.
Definition nj : num := Fin Ci.

Definition nadd : num -> num -> num := lift2 Cadd.
Definition nmul : num -> num -> num := lift2 Cmul.
Definition nneg : num -> num := lift1 Cneg.
Definition nconj : num -> num := lift1 Cconj.
Definition nexp : num -> num := lift1 Cexp.
Definition nabs : num -> num := lift1 (fun z => RtoC (Cabs z)).

(** numpy's array division: a zero divisor gives [inf] or [NaN], no
    exception. *)
Definition ndiv (x y : num) : num :=
  match x, y with
  | Fin a, Fin b => if Ceq_dec b C0 then NonFinite else Fin (Cdiv a b)
  | _, _ => NonFinite
  end.

Definition nreal : num -> ext R := lift1 Re.
Definition nimag : num -> ext R := lift1 Im.
(** [M.imag] kept as an array entry. *)
Definition nim : num -> num := lift1 (fun z => RtoC (Im z)).

(** Python's scalar division [a / b] on [complex]: it raises
    [ZeroDivisionError] on a zero divisor. *)
Definition py_cdiv (a b : C) : option C :=
  if Ceq_dec b C0 then None else Some (Cdiv a b).

Declare Scope num_scope.
Delimit Scope num_scope with num.
Infix "+" := nadd : num_scope.
Infix "*" := nmul : num_scope.
Infix "/" := ndiv : num_scope.
Notation "- x" := (nneg x) : num_scope.

(* ================================================================== *)
(** ** numpy arrays *)

Fixpoint zipWith {A B D : Type} (f : A -> B -> D) (a : list A) (b : list B)
  : list D :=
  match a, b with
  | x :: a', y :: b' => f x y :: zipWith f a' b'
  | _, _ => []
  end.

Definition enumerate {A : Type} (l : list A) : list (nat * A) :=
  combine (seq 0 (length l)) l.

Definition array : Type := list num.

Definition ones (n : nat) : array := repeat n1 n.
Definition a_add : array -> array -> array := zipWith nadd.
Definition a_mul : array -> array -> array := zipWith nmul.
Definition a_div : array -> array -> array := zipWith ndiv.
Definition a_neg : array -> array := map nneg.
Definition a_conj : array -> array := map nconj.
Definition a_exp : array -> array := map nexp.
Definition a_abs : array -> array := map nabs.
(** scalar * array and array / scalar *)
Definition a_scale (c : num) : array -> array := map (nmul c).
Definition a_divs (a : array) (c : num) : array := map (fun v => ndiv v c) a.
Definition a_muls (a : array) (c : num) : array := map (fun v => nmul v c) a.

(** [a[i] = v] on an array; an index outside [a] raises [IndexError], which
    no caller below can trigger (the index always comes from [enumerate]). *)
Fixpoint set_nth {A : Type} (a : list A) (i : nat) (v : A) : list A :=
  match a, i with
  | [], _ => []
  | _ :: a', O => v :: a'
  | y :: a', S i' => y :: set_nth a' i' v
  end.

(** [a[idx] = b[idx]] for an index array [idx]. *)
Definition assign_at (a : array) (idx : list nat) (b : array) : array :=
  fold_left (fun acc i => set_nth acc i (nth i b n0)) idx a.

(** Elementwise binary operation with numpy's broadcasting of a
    one-element operand; other length mismatches raise [ValueError]. *)
Definition broadcast2 (f : num -> num -> num) (a b : array) : option array :=
  if (length a =? length b)%nat then Some (zipWith f a b)
  else match a, b with
       | [x], _ => Some (map (f x) b)
       | _, [y] => Some (map (fun v => f v y) a)
       | _, _ => None
       end.

(** [a[idx]] for an index array: [IndexError] outside the array. *)
Fixpoint take {A : Type} (a : list A) (idx : list nat) : option (list A) :=
  match idx with
  | [] => Some []
  | i :: idx' =>
      match nth_error a i, take a idx' with
      | Some v, Some r => Some (v :: r)
      | _, _ => None
      end
  end.

Definition nsum (l : array) : num := fold_right nadd n0 l.

(* ================================================================== *)
(** ** scipy.sparse matrices *)

Definition entry : Type := (nat * nat * num)%type.
Definition erow (e : entry) : nat := fst (fst e).
Definition ecol (e : entry) : nat := snd (fst e).
Definition eval (e : entry) : num := snd e.

Record smatrix : Type := mkSM {
  nrows : nat;
  ncols : nat;
  entries : list entry
}.

(** [M[i, j]]: the stored entries at that position, added up. *)
Definition gete (es : list entry) (i j : nat) : num :=
  nsum (map eval (filter (fun e => (erow e =? i)%nat && (ecol e =? j)%nat)
                         es)).

Definition get (M : smatrix) (i j : nat) : num := gete (entries M) i j.

(** [csc_matrix((data, (i, j)), shape=(m, n))] (and [csr_matrix], which
    differs in storage only): [ValueError] when the three arrays differ in
    length or an index falls outside the shape. *)
Definition csc_matrix (data : array) (i j : list nat) (m n : nat)
  : option smatrix :=
  if (length i =? length data)%nat && (length j =? length data)%nat
     && forallb (fun r => r <? m)%nat i && forallb (fun c => c <? n)%nat j
  then Some (mkSM m n (combine (combine i j) data))
  else None.

(** [csr_matrix((data, (ib, ib)))] with [ib = range(nb)]: the shape is
    inferred from the largest index, so the result is [nb] by [nb]. *)
Definition csr_diag (data : array) (nb : nat) : option smatrix :=
  csc_matrix data (seq 0 nb) (seq 0 nb) nb nb.

(** [csr_matrix((nb, nb))]: the empty matrix. *)
Definition sp_zeros (m n : nat) : smatrix := mkSM m n [].

Definition sp_map (f : num -> num) (M : smatrix) : smatrix :=
  mkSM (nrows M) (ncols M)
       (map (fun e => (erow e, ecol e, f (eval e))) (entries M)).

Definition sp_T (M : smatrix) : smatrix :=
  mkSM (ncols M) (nrows M)
       (map (fun e => (ecol e, erow e, eval e)) (entries M)).

Definition sp_conj : smatrix -> smatrix := sp_map nconj.
Definition sp_H (M : smatrix) : smatrix := sp_conj (sp_T M).
Definition sp_neg : smatrix -> smatrix := sp_map nneg.
Definition sp_imag : smatrix -> smatrix := sp_map nim.
Definition sp_scale (c : num) : smatrix -> smatrix := sp_map (nmul c).

Definition sp_add (A B : smatrix) : option smatrix :=
  if (nrows A =? nrows B)%nat && (ncols A =? ncols B)%nat
  then Some (mkSM (nrows A) (ncols A) (entries A ++ entries B))
  else None.

Definition sp_sub (A B : smatrix) : option smatrix := sp_add A (sp_neg B).

(** Sparse product: only stored entries meet. *)
Definition mul_entries (ea eb : list entry) : list entry :=
  flat_map (fun a =>
              map (fun b => (erow a, ecol b, nmul (eval a) (eval b)))
                  (filter (fun b => (erow b =? ecol a)%nat) eb))
           ea.

Definition sp_mul (A B : smatrix) : option smatrix :=
  if (ncols A =? nrows B)%nat
  then Some (mkSM (nrows A) (ncols B) (mul_entries (entries A) (entries B)))
  else None.

(** Sparse matrix times dense vector: a dense vector of [nrows] values. *)
Definition sp_matvec (A : smatrix) (v : array) : option array :=
  if (ncols A =? length v)%nat
  then Some (map (fun i =>
                    nsum (map (fun e => nmul (eval e) (nth (ecol e) v n0))
                              (filter (fun e => (erow e =? i)%nat)
                                      (entries A))))
                 (seq 0 (nrows A)))
  else None.

(** [M[rows, :]] for an index list: [IndexError] outside the matrix. *)
Definition sp_rows (M : smatrix) (rows : list nat) : option smatrix :=
  if forallb (fun r => r <? nrows M)%nat rows
  then Some (mkSM (length rows) (ncols M)
               (flat_map (fun kr =>
                            map (fun e => (fst kr, ecol e, eval e))
                                (filter (fun e => (erow e =? snd kr)%nat)
                                        (entries M)))
                         (enumerate rows)))
  else None.

Definition row_sum (M : smatrix) (i : nat) : num :=
  nsum (map (get M i) (seq 0 (ncols M))).

Notation "x <- a ;; b" :=
  (match a with Some x => b | None => None end)
    (at level 61, a at next level, right associativity, only parsing).

(* ================================================================== *)
(** ** Data model ([case.py]) *)

Definition PV : string := "PV".
Definition PQ : string := "PQ".
Definition REFERENCE : string := "ref".
Definition ISOLATED : string := "isolated".

Module Bus.
Record t : Type := mk {
  name : option string;
  type : string;
  v_base : R;
  v_magnitude : R;
  v_angle : R;
  v_max : R;
  v_min : R;
  p_demand : R;
  q_demand : R;
  g_shunt : R;
  b_shunt : R;
  area : nat;
  zone : nat;
  p_lmbda : R;
  q_lmbda : R;
  mu_vmin : R;
  mu_vmax : R;
  _i : nat
}.

(** [Bus.__init__] with its default arguments. *)
Definition init (name : option string) (type : string) : t :=
  mk name type 100 1 0 1.1 0.9 0 0 0 0 1 1 0 0 0 0 0.

Definition reset (self : t) : t :=
  mk (name self) (type self) (v_base self) (v_magnitude self)
     (v_angle self) (v_max self) (v_min self) (p_demand self)
     (q_demand self) (g_shunt self) (b_shunt self) (area self)
     (zone self) 0 0 0 0 (_i self).

Definition set_i (self : t) (i : nat) : t :=
  mk (name self) (type self) (v_base self) (v_magnitude self)
     (v_angle self) (v_max self) (v_min self) (p_demand self)
     (q_demand self) (g_shunt self) (b_shunt self) (area self)
     (zone self) (p_lmbda self) (q_lmbda self) (mu_vmin self)
     (mu_vmax self) i.

Definition set_b_shunt (self : t) (v : R) : t :=
  mk (name self) (type self) (v_base self) (v_magnitude self)
     (v_angle self) (v_max self) (v_min self) (p_demand self)
     (q_demand self) (g_shunt self) v (area self)
     (zone self) (p_lmbda self) (q_lmbda self) (mu_vmin self)
     (mu_vmax self) (_i self).

(** [b.v_angle = va; b.v_magnitude = vm] *)
Definition set_voltage (self : t) (va vm : R) : t :=
  mk (name self) (type self) (v_base self) vm va (v_max self)
     (v_min self) (p_demand self) (q_demand self) (g_shunt self)
     (b_shunt self) (area self) (zone self) (p_lmbda self)
     (q_lmbda self) (mu_vmin self) (mu_vmax self) (_i self).
End Bus.

(** A branch refers to its two buses.  [B] is how: the bus itself where
    the branch is only read ([getYbus], [makeB], [makeBdc]), a position in
    [Case.buses] where buses are mutated behind the branch
    ([index_buses], [pf_solution]). *)
Module Branch.
Record t (B : Type) : Type := mk {
  from_bus : B;
  to_bus : B;
  name : option string;
  online : bool;
  r : R;
  x : R;
  b : R;
  rate_a : R;
  rate_b : R;
  rate_c : R;
  ratio : R;
  phase_shift : R;
  ang_min : R;
  ang_max : R;
  p_from : ext R;
  p_to : ext R;
  q_from : ext R;
  q_to : ext R;
  mu_s_from : R;
  mu_s_to : R;
  mu_angmin : R;
  mu_angmax : R;
  _i : nat
}.
Arguments mk {B}.
Arguments from_bus {B}. Arguments to_bus {B}. Arguments name {B}.
Arguments online {B}. Arguments r {B}. Arguments x {B}. Arguments b {B}.
Arguments rate_a {B}. Arguments rate_b {B}. Arguments rate_c {B}.
Arguments ratio {B}. Arguments phase_shift {B}. Arguments ang_min {B}.
Arguments ang_max {B}. Arguments p_from {B}. Arguments p_to {B}.
Arguments q_from {B}. Arguments q_to {B}. Arguments mu_s_from {B}.
Arguments mu_s_to {B}. Arguments mu_angmin {B}. Arguments mu_angmax {B}.
Arguments _i {B}.

(** [Branch.__init__] with its default arguments. *)
Definition init {B : Type} (from_bus to_bus : B) : t B :=
  mk from_bus to_bus None true 0 0 0 999 999 999 0 0 (-360) 360
     (Fin 0) (Fin 0) (Fin 0) (Fin 0) 0 0 0 0 0%nat.

Definition reset {B : Type} (self : t B) : t B :=
  mk (from_bus self) (to_bus self) (name self) (online self) (r self)
     (x self) (b self) (rate_a self) (rate_b self) (rate_c self)
     (ratio self) (phase_shift self) (ang_min self) (ang_max self)
     (Fin 0) (Fin 0) (Fin 0) (Fin 0) 0 0 0 0 (_i self).

Definition set_i {B : Type} (self : t B) (i : nat) : t B :=
  mk (from_bus self) (to_bus self) (name self) (online self) (r self)
     (x self) (b self) (rate_a self) (rate_b self) (rate_c self)
     (ratio self) (phase_shift self) (ang_min self) (ang_max self)
     (p_from self) (p_to self) (q_from self) (q_to self)
     (mu_s_from self) (mu_s_to self) (mu_angmin self) (mu_angmax self) i.

Definition set_r {B : Type} (self : t B) (v : R) : t B :=
  mk (from_bus self) (to_bus self) (name self) (online self) v
     (x self) (b self) (rate_a self) (rate_b self) (rate_c self)
     (ratio self) (phase_shift self) (ang_min self) (ang_max self)
     (p_from self) (p_to self) (q_from self) (q_to self)
     (mu_s_from self) (mu_s_to self) (mu_angmin self) (mu_angmax self)
     (_i self).

Definition set_b {B : Type} (self : t B) (v : R) : t B :=
  mk (from_bus self) (to_bus self) (name self) (online self) (r self)
     (x self) v (rate_a self) (rate_b self) (rate_c self)
     (ratio self) (phase_shift self) (ang_min self) (ang_max self)
     (p_from self) (p_to self) (q_from self) (q_to self)
     (mu_s_from self) (mu_s_to self) (mu_angmin self) (mu_angmax self)
     (_i self).

Definition set_ratio {B : Type} (self : t B) (v : R) : t B :=
  mk (from_bus self) (to_bus self) (name self) (online self) (r self)
     (x self) (b self) (rate_a self) (rate_b self) (rate_c self)
     v (phase_shift self) (ang_min self) (ang_max self)
     (p_from self) (p_to self) (q_from self) (q_to self)
     (mu_s_from self) (mu_s_to self) (mu_angmin self) (mu_angmax self)
     (_i self).

Definition set_phase_shift {B : Type} (self : t B) (v : R) : t B :=
  mk (from_bus self) (to_bus self) (name self) (online self) (r self)
     (x self) (b self) (rate_a self) (rate_b self) (rate_c self)
     (ratio self) v (ang_min self) (ang_max self)
     (p_from self) (p_to self) (q_from self) (q_to self)
     (mu_s_from self) (mu_s_to self) (mu_angmin self) (mu_angmax self)
     (_i self).

(** [l.p_from = ..; l.q_from = ..; l.p_to = ..; l.q_to = ..] *)
Definition set_flows {B : Type} (self : t B) (pf qf pt qt : ext R) : t B :=
  mk (from_bus self) (to_bus self) (name self) (online self) (r self)
     (x self) (b self) (rate_a self) (rate_b self) (rate_c self)
     (ratio self) (phase_shift self) (ang_min self) (ang_max self)
     pf pt qf qt
     (mu_s_from self) (mu_s_to self) (mu_angmin self) (mu_angmax self)
     (_i self).

(** The same branch with its two bus references replaced. *)
Definition with_buses {B B' : Type} (self : t B) (f t' : B') : t B' :=
  mk f t' (name self) (online self)
     (r self) (x self) (b self) (rate_a self) (rate_b self) (rate_c self)
     (ratio self) (phase_shift self) (ang_min self) (ang_max self)
     (p_from self) (p_to self) (q_from self) (q_to self)
     (mu_s_from self) (mu_s_to self) (mu_angmin self) (mu_angmax self)
     (_i self).
End Branch.

(** Modelled from the spec: the [Generator] class is not among the source
    files.  The fields are those [case.py] reads and writes ([bus],
    [online], [is_load], [p], [q]); its [reset] method is a parameter of
    the functions that call it. *)
Module Generator.
Record t (B : Type) : Type := mk {
  bus : B;
  online : bool;
  is_load : bool;
  p : ext R;
  q : ext R
}.
Arguments mk {B}. Arguments bus {B}. Arguments online {B}.
Arguments is_load {B}. Arguments p {B}. Arguments q {B}.

Definition set_p {B : Type} (self : t B) (v : ext R) : t B :=
  mk (bus self) (online self) (is_load self) v (q self).
Definition set_q {B : Type} (self : t B) (v : ext R) : t B :=
  mk (bus self) (online self) (is_load self) (p self) v.
End Generator.

(** A case owns its buses; branches and generators refer to a bus by its
    position in [buses]. *)
Module Case.
Record t : Type := mk {
  name : option string;
  base_mva : R;
  buses : list Bus.t;
  branches : list (Branch.t nat);
  generators : list (Generator.t nat)
}.
End Case.

(* ================================================================== *)
(** ** [Case]: properties and indexing *)

(** In-place mutation of the object at position [k] of a list. *)
Fixpoint update_nth {A : Type} (l : list A) (k : nat) (f : A -> A) : list A :=
  match l, k with
  | [], _ => []
  | a :: l', O => f a :: l'
  | a :: l', S k' => a :: update_nth l' k' f
  end.

Fixpoint foldM {S A : Type} (f : S -> A -> option S) (l : list A) (s : S)
  : option S :=
  match l with
  | [] => Some s
  | a :: l' => s' <- f s a ;; foldM f l' s'
  end.

Fixpoint mapM {A B : Type} (f : A -> option B) (l : list A)
  : option (list B) :=
  match l with
  | [] => Some []
  | a :: l' => b <- f a ;; r <- mapM f l' ;; Some (b :: r)
  end.

Definition with_buses (self : Case.t) (bs : list Bus.t) : Case.t :=
  Case.mk (Case.name self) (Case.base_mva self) bs (Case.branches self)
          (Case.generators self).
Definition with_branches (self : Case.t) (ls : list (Branch.t nat)) : Case.t :=
  Case.mk (Case.name self) (Case.base_mva self) (Case.buses self) ls
          (Case.generators self).
Definition with_generators (self : Case.t) (gs : list (Generator.t nat))
  : Case.t :=
  Case.mk (Case.name self) (Case.base_mva self) (Case.buses self)
          (Case.branches self) gs.

(** The bus a reference points to. *)
Definition deref (self : Case.t) (h : nat) : option Bus.t :=
  nth_error (Case.buses self) h.

(** A branch of the case with its buses read through the references. *)
Definition resolve (self : Case.t) (e : Branch.t nat)
  : option (Branch.t Bus.t) :=
  f <- deref self (Branch.from_bus e) ;;
  t <- deref self (Branch.to_bus e) ;;
  Some (Branch.with_buses e f t).

(** The three properties return lists of objects of the case: here, of
    their positions in [buses], [generators] and [branches]. *)
Definition connected_buses (self : Case.t) : list nat :=
  map fst (filter (fun hb => negb (String.eqb (Bus.type (snd hb)) ISOLATED))
                  (enumerate (Case.buses self))).

Definition online_generators (self : Case.t) : list nat :=
  map fst (filter (fun kg => Generator.online (snd kg))
                  (enumerate (Case.generators self))).

Definition online_branches (self : Case.t) : list nat :=
  map fst (filter (fun kl => Branch.online (snd kl))
                  (enumerate (Case.branches self))).

Definition index_buses (self : Case.t) (buses : option (list nat))
           (start : nat) : Case.t :=
  let bs := match buses with None => connected_buses self | Some l => l end in
  fold_left (fun c ib =>
               with_buses c (update_nth (Case.buses c) (snd ib)
                               (fun b => Bus.set_i b (start + fst ib))))
            (enumerate bs) self.

Definition index_branches (self : Case.t) (branches : option (list nat))
           (start : nat) : Case.t :=
  let ln := match branches with None => online_branches self | Some l => l end in
  fold_left (fun c il =>
               with_branches c (update_nth (Case.branches c) (snd il)
                                  (fun l => Branch.set_i l (start + fst il))))
            (enumerate ln) self.

(* ================================================================== *)
(** ** Admittance matrix: [Case.getYbus] *)

(** [e.phase_shift * pi / 180.0] *)
Definition deg2rad (e : Branch.t Bus.t) : num :=
  ofR (Branch.phase_shift e * PI / 180).

Definition getYbus (self : Case.t) (buses : option (list Bus.t))
           (branches : option (list (Branch.t Bus.t)))
  : option (smatrix * smatrix * smatrix) :=
  let buses := match buses with None => Case.buses self | Some l => l end in
  branches <- match branches with
              | None => mapM (resolve self) (Case.branches self)
              | Some l => Some l
              end ;;
  let nb := length buses in
  let nl := length branches in
  let ib := seq 0 nb in
  let il := seq 0 nl in

  let online := map (fun e => of_bool (Branch.online e)) branches in

  (* Series admittance. *)
  let r := map (fun e => ofR (Branch.r e)) branches in
  let x := map (fun e => ofR (Branch.x e)) branches in
  let Ys := a_div online (a_add r (a_scale nj x)) in

  (* Line charging susceptance. *)
  let b := map (fun e => ofR (Branch.b e)) branches in
  let Bc := a_mul online b in

  (* Transformer tap ratios. *)
  let tap := ones nl in
  let i_trx := map fst (filter (fun ie => Rneb (Branch.ratio (snd ie)) 0)
                               (enumerate branches)) in
  let ratio := map (fun e => ofR (Branch.ratio e)) branches in
  let tap := if (0 <? length i_trx)%nat then assign_at tap i_trx ratio
             else tap in

  (* Phase shifters. *)
  let shift := map deg2rad branches in
  let tap := a_mul tap (a_exp (a_scale nj shift)) in

  (* Branch admittance matrix elements. *)
  let Ytt := a_add Ys (a_divs (a_scale nj Bc) (ofR 2)) in
  let Yff := a_div Ytt (a_mul tap (a_conj tap)) in
  let Yft := a_div (a_neg Ys) (a_conj tap) in
  let Ytf := a_div (a_neg Ys) tap in

  (* Shunt admittance. *)
  let g_shunt := map (fun v => ofR (Bus.g_shunt v)) buses in
  let b_shunt := map (fun v => ofR (Bus.b_shunt v)) buses in
  let Ysh := a_divs (a_add g_shunt (a_scale nj b_shunt))
                    (ofR (Case.base_mva self)) in

  (* Connection matrices. *)
  let f := map (fun e => Bus._i (Branch.from_bus e)) branches in
  let t := map (fun e => Bus._i (Branch.to_bus e)) branches in
  Cf <- csc_matrix (ones nl) il f nl nb ;;
  Ct <- csc_matrix (ones nl) il t nl nb ;;

  (* Build bus admittance matrix. *)
  let i := il ++ il in
  let j := f ++ t in
  Yf <- csc_matrix (Yff ++ Yft) i j nl nb ;;
  Yt <- csc_matrix (Ytf ++ Ytt) i j nl nb ;;

  (* Branch admittances plus shunt admittances. *)
  Ysh_diag <- csc_matrix Ysh ib ib nb nb ;;
  CfYf <- sp_mul (sp_T Cf) Yf ;;
  CtYt <- sp_mul (sp_T Ct) Yt ;;
  S <- sp_add CfYf CtYt ;;
  Ybus <- sp_add S Ysh_diag ;;
  (* assert Ybus.shape == (nb, nb) *)
  if (nrows Ybus =? nb)%nat && (ncols Ybus =? nb)%nat
  then Some (Ybus, Yf, Yt)
  else None.

(* ================================================================== *)
(** ** Fast decoupled matrices: [Case.makeB] *)

(** [copy.deepcopy]: values here are immutable, a copy is the value. *)
Definition deepcopy {A : Type} (a : A) : A := a.

Definition makeB (self : Case.t) (buses : option (list Bus.t))
           (branches : option (list (Branch.t Bus.t))) (method : string)
  : option (smatrix * smatrix) :=
  buses <- match buses with
           | None => take (Case.buses self) (connected_buses self)
           | Some l => Some l
           end ;;
  branches <- match branches with
              | None => ls <- take (Case.branches self) (online_branches self) ;;
                        mapM (resolve self) ls
              | Some l => Some l
              end ;;
  let B_buses := deepcopy buses in
  let Bp_branches := deepcopy branches in
  let Bpp_branches := deepcopy branches in

  let B_buses := map (fun bus => Bus.set_b_shunt bus 0) B_buses in
  let Bp_branches :=
    map (fun branch =>
           let branch := Branch.set_b branch 0 in
           let branch := Branch.set_ratio branch 1 in
           if String.eqb method "XB" then Branch.set_r branch 0 else branch)
        Bp_branches in

  Yp3 <- getYbus self (Some B_buses) (Some Bp_branches) ;;
  let Yp := fst (fst Yp3) in

  let Bpp_branches :=
    map (fun branch =>
           let branch := Branch.set_phase_shift branch 0 in
           if String.eqb method "BX" then Branch.set_r branch 0 else branch)
        Bpp_branches in

  Ypp3 <- getYbus self (Some B_buses) (Some Bpp_branches) ;;
  let Ypp := fst (fst Ypp3) in

  Some (sp_neg (sp_imag Yp), sp_neg (sp_imag Ypp)).

(* ================================================================== *)
(** ** DC power flow matrices: [Case.makeBdc] *)

Definition makeBdc (self : Case.t) (buses : option (list Bus.t))
           (branches : option (list (Branch.t Bus.t)))
  : option (smatrix * smatrix * array * array) :=
  buses <- match buses with
           | None => take (Case.buses self) (connected_buses self)
           | Some l => Some l
           end ;;
  branches <- match branches with
              | None => ls <- take (Case.branches self) (online_branches self) ;;
                        mapM (resolve self) ls
              | Some l => Some l
              end ;;
  let nb := length buses in
  let nl := length branches in

  (* Ones at in-service branches. *)
  let online := map (fun br => of_bool (Branch.online br)) branches in
  (* Series susceptance. *)
  let b := a_div online (map (fun br => ofR (Branch.x br)) branches) in

  (* Default tap ratio = 1.0. *)
  let tap := ones nl in
  let tap := fold_left (fun tap ibr =>
                          if Rneb (Branch.ratio (snd ibr)) 0
                          then set_nth tap (fst ibr)
                                       (ofR (Branch.ratio (snd ibr)))
                          else tap)
                       (enumerate branches) tap in
  let b := a_div b tap in

  let f := map (fun br => Bus._i (Branch.from_bus br)) branches in
  let t := map (fun br => Bus._i (Branch.to_bus br)) branches in
  let i := seq 0 nl ++ seq 0 nl in
  let one := ones nl in
  Cft <- csc_matrix (one ++ a_neg one) i (f ++ t) nl nb ;;

  (* Bf * Va is the vector of real branch powers injected at each
     branch's "from" bus. *)
  Bf <- csc_matrix (b ++ a_neg b) i (f ++ t) nl nb ;;

  Bbus <- sp_mul (sp_T Cft) Bf ;;

  (* Build phase shift injection vectors. *)
  let shift := map deg2rad branches in
  let Pfinj := a_mul b shift in
  Pbusinj <- sp_matvec (sp_T Cft) Pfinj ;;

  Some (Bbus, Bf, Pbusinj, Pfinj).

(* ================================================================== *)
(** ** Second derivatives: [Case.d2Sbus_dV2], [Case.d2Ibr_dV2] *)

Definition d2Sbus_dV2 (self : Case.t) (Ybus : smatrix) (V : list C)
           (lam : array)
  : option (smatrix * smatrix * smatrix * smatrix) :=
  let V : array := map Fin V in
  let nb := length V in
  Ibus <- sp_matvec Ybus V ;;
  diaglam <- csr_diag lam nb ;;
  diagV <- csr_diag V nb ;;

  lamV <- broadcast2 nmul lam V ;;
  A <- csr_diag lamV nb ;;
  B <- sp_mul Ybus diagV ;;
  C <- sp_mul A (sp_conj B) ;;
  D <- sp_mul (sp_H Ybus) diagV ;;
  Dl <- sp_mul D diaglam ;;
  Dlam <- sp_matvec D lam ;;
  dDlam <- csr_diag Dlam nb ;;
  E0 <- sp_sub Dl dDlam ;;
  E <- sp_mul (sp_conj diagV) E0 ;;
  dI <- csr_diag (a_conj Ibus) nb ;;
  AdI <- sp_mul A dI ;;
  F <- sp_sub C AdI ;;
  G <- csr_diag (a_div (ones nb) (a_abs V)) nb ;;

  Gaa <- sp_add E F ;;
  EF <- sp_sub E F ;;
  Gva <- sp_mul (sp_scale nj G) EF ;;
  let Gav := sp_T Gva in
  CC <- sp_add C (sp_T C) ;;
  GCC <- sp_mul G CC ;;
  Gvv <- sp_mul GCC G ;;

  Some (Gaa, Gav, Gva, Gvv).

Definition d2Ibr_dV2 (self : Case.t) (Ybr : smatrix) (V : list C)
           (lam : array)
  : option (smatrix * smatrix * smatrix * smatrix) :=
  let V : array := map Fin V in
  let nb := length V in
  diaginvVm <- csr_diag (a_div (ones nb) (a_abs V)) nb ;;

  Ybrlam <- sp_matvec (sp_T Ybr) lam ;;
  h <- broadcast2 ndiv (a_neg Ybrlam) V ;;
  Haa <- csr_diag h nb ;;
  Hva <- sp_mul (sp_scale (nneg nj) Haa) diaginvVm ;;
  let Hav := Hva in
  let Hvv := sp_zeros nb nb in

  Some (Haa, Hav, Hva, Hvv).

(* ================================================================== *)
(** ** Results: [Case.reset], [Case.pf_solution] *)

Definition radd : ext R -> ext R -> ext R := lift2 Rplus.
Definition rmul : ext R -> ext R -> ext R := lift2 Rmult.

Section Solution.

(** [Generator.reset], which [case.py] calls and does not define. *)
Variable Generator_reset : Generator.t nat -> Generator.t nat.

Definition reset (self : Case.t) : Case.t :=
  Case.mk (Case.name self) (Case.base_mva self)
          (map Bus.reset (Case.buses self))
          (map Branch.reset (Case.branches self))
          (map Generator_reset (Case.generators self)).

(** The bus of the generator at position [k]. *)
Definition gen_bus (self : Case.t) (k : nat) : option Bus.t :=
  g <- nth_error (Case.generators self) k ;;
  deref self (Generator.bus g).

Definition pf_solution (self : Case.t) (Ybus Yf Yt : smatrix) (V : list C)
  : option Case.t :=
  let buses := connected_buses self in
  let branches := online_branches self in
  let generators := online_generators self in

  let self := reset self in
  let self := index_buses self None 0 in
  let self := index_branches self None 0 in

  let Va := map Cangle V in
  let Vm := map Cabs V in
  self <- foldM (fun c ib =>
                   va <- nth_error Va (fst ib) ;;
                   vm <- nth_error Vm (fst ib) ;;
                   Some (with_buses c
                           (update_nth (Case.buses c) (snd ib)
                              (fun b => Bus.set_voltage b (va * 180 / PI) vm))))
                (enumerate buses) self ;;

  (* Update Qg for all gens and Pg for swing bus. *)
  refgen <- mapM (fun ig =>
                    b <- gen_bus self (snd ig) ;;
                    Some (fst ig, String.eqb (Bus.type b) REFERENCE))
                 (enumerate generators) ;;
  let refgen := map fst (filter snd refgen) in

  (* Compute total injected bus powers. *)
  let V : array := map Fin V in
  YV <- sp_matvec Ybus V ;;
  Sg <- broadcast2 nmul V (a_conj YV) ;;

  (* Update Qg for all generators. *)
  self <- foldM (fun c k =>
                   b <- gen_bus c k ;;
                   s <- nth_error Sg (Bus._i b) ;;
                   Some (with_generators c
                           (update_nth (Case.generators c) k
                              (fun g => Generator.set_q g
                                 (radd (rmul (nimag s)
                                             (Fin (Case.base_mva c)))
                                       (Fin (Bus.q_demand b)))))))
                generators self ;;

  (* Update Pg for swing bus. *)
  self <- foldM (fun c i =>
                   k <- nth_error generators i ;;
                   b <- gen_bus c k ;;
                   s <- nth_error Sg i ;;
                   Some (with_generators c
                           (update_nth (Case.generators c) k
                              (fun g => Generator.set_p g
                                 (radd (rmul (nreal s)
                                             (Fin (Case.base_mva c)))
                                       (Fin (Bus.p_demand b)))))))
                refgen self ;;

  ls <- take (Case.branches self) branches ;;
  let br := map (fun l => Branch._i l) ls in
  f_idx <- mapM (fun l => b <- deref self (Branch.from_bus l) ;;
                          Some (Bus._i b)) ls ;;
  t_idx <- mapM (fun l => b <- deref self (Branch.to_bus l) ;;
                          Some (Bus._i b)) ls ;;

  Vf <- take V f_idx ;;
  Yfbr <- sp_rows Yf br ;;
  YfV <- sp_matvec Yfbr V ;;
  Sf <- broadcast2 nmul Vf (a_conj YfV) ;;
  let Sf := a_muls Sf (ofR (Case.base_mva self)) in
  Vt <- take V t_idx ;;
  Ytbr <- sp_rows Yt br ;;
  YtV <- sp_matvec Ytbr V ;;
  St <- broadcast2 nmul Vt (a_conj YtV) ;;
  let St := a_muls St (ofR (Case.base_mva self)) in

  (* Complex power at "from" bus. *)
  foldM (fun c il =>
           sf <- nth_error Sf (fst il) ;;
           st <- nth_error St (fst il) ;;
           Some (with_branches c
                   (update_nth (Case.branches c) (snd il)
                      (fun l => Branch.set_flows l (nreal sf) (nimag sf)
                                                   (nreal st) (nimag st)))))
        (enumerate branches) self.

End Solution.

(* ================================================================== *)
(** ** [make_admittance_matrix] ([routine/y.py]) *)

Module Y.

(** What [make_admittance_matrix] reads of a branch and of a network
    (their classes are not among the source files); a bus is known by an
    identifier, compared by [buses.index]. *)
Record branch : Type := mk_branch {
  source_bus : nat;
  target_bus : nat;
  r : R;
  x : R;
  b : R
}.

Record network : Type := mk_network {
  non_islanded_buses : list nat;
  n_non_islanded_buses : nat;
  in_service_branches : list branch
}.

(** [l.index(v)]: first position of [v], [ValueError] when absent. *)
Fixpoint index (l : list nat) (v : nat) : option nat :=
  match l with
  | [] => None
  | a :: l' => if (a =? v)%nat then Some O
               else k <- index l' v ;; Some (S k)
  end.

(** [Y[i, j] += v] on a cvxopt [spmatrix]: [IndexError] outside. *)
Definition iadd (M : smatrix) (i j : nat) (v : C) : option smatrix :=
  if (i <? nrows M)%nat && (j <? ncols M)%nat
  then Some (mkSM (nrows M) (ncols M) (entries M ++ [(i, j, Fin v)]))
  else None.

(** The series admittance of one branch, with its [try]/[except]. *)
Definition branch_y (br : branch) : C :=
  match py_cdiv C1 (mkC (r br) (x br)) with
  | Some y => y
  | None => RtoC 1e10
  end.

Definition make_admittance_matrix (network : network) : option smatrix :=
  let buses := non_islanded_buses network in
  let n_buses := n_non_islanded_buses network in
  let branches := in_service_branches network in
  foldM (fun Y br =>
           src_idx <- index buses (source_bus br) ;;
           dst_idx <- index buses (target_bus br) ;;
           let y := branch_y br in
           let chrg := Cdiv (mkC 0 (b br)) (RtoC 2) in
           Y <- iadd Y src_idx dst_idx (Cneg y) ;;
           Y <- iadd Y dst_idx src_idx (Cneg y) ;;
           Y <- iadd Y src_idx src_idx (Cadd y chrg) ;;
           iadd Y dst_idx dst_idx (Cadd y chrg))
        branches (sp_zeros n_buses n_buses).

End Y.

(* ================================================================== *)
(** ** [make_susceptance_matrix] ([routine/y.py]) *)

Module Ysus.

(** What [make_susceptance_matrix] reads of a branch and of a network. *)
Record branch : Type := mk_branch {
  source_bus : nat;
  target_bus : nat;
  x : R;
  ratio : R
}.

Record network : Type := mk_network {
  non_islanded_buses : list nat;
  in_service_branches : list branch;
  n_non_islanded_buses : nat;
  n_in_service_branches : nat
}.


(** The susceptance of one branch: [1/x], or [1e12] for a zero reactance,
    divided by the tap ratio when one is set. *)
Definition b_branch (e : branch) : R :=
  let b_branch := if Rneb (x e) 0 then 1 / x e else 1e12 in
  if Rneb (ratio e) 0 then b_branch / ratio e else b_branch.


End Ysus.

(* ================================================================== *)
(** ** Bus injections: [Case.s_supply], [Case.s_demand], [Case.s_surplus],
       [Case.getSbus] *)













(* ================================================================== *)
(** ** [Case.sort_generators] *)




(* ================================================================== *)
(** ** First derivatives: [Case.dSbus_dV], [Case.dIbr_dV] *)




(* ================================================================== *)
(** ** Second derivative of the branch flows: [Case.d2Sbr_dV2] *)


(* ================================================================== *)
(** ** The properties in the words of the specification *)

Definition from_i (e : Branch.t Bus.t) : nat := Bus._i (Branch.from_bus e).
Definition to_i (e : Branch.t Bus.t) : nat := Bus._i (Branch.to_bus e).

(** Every branch ends at a column of the bus list. *)
Definition indexed (buses : list Bus.t) (branches : list (Branch.t Bus.t))
  : Prop :=
  Forall (fun e => (from_i e < length buses)%nat /\
                   (to_i e < length buses)%nat) branches.

(** Series admittance [Ys = online / (r + jx)]. *)
Definition branch_Ys (e : Branch.t Bus.t) : num :=
  (of_bool (Branch.online e) / (ofR (Branch.r e) + nj * ofR (Branch.x e)))%num.

(** Charging susceptance [Bc = online * b]. *)
Definition branch_Bc (e : Branch.t Bus.t) : num :=
  (of_bool (Branch.online e) * ofR (Branch.b e))%num.

(** Tap magnitude: 1 unless a non-zero ratio is set. *)
Definition branch_ratio (e : Branch.t Bus.t) : num :=
  if Rneb (Branch.ratio e) 0 then ofR (Branch.ratio e) else n1.

(** Complex tap: magnitude times [exp (j * shift)], shift in radians. *)
Definition branch_tap (e : Branch.t Bus.t) : num :=
  (branch_ratio e * nexp (nj * deg2rad e))%num.

Definition branch_Ytt (e : Branch.t Bus.t) : num :=
  (branch_Ys e + nj * branch_Bc e / ofR 2)%num.
Definition branch_Yff (e : Branch.t Bus.t) : num :=
  (branch_Ytt e / (branch_tap e * nconj (branch_tap e)))%num.
Definition branch_Yft (e : Branch.t Bus.t) : num :=
  (- branch_Ys e / nconj (branch_tap e))%num.
Definition branch_Ytf (e : Branch.t Bus.t) : num :=
  (- branch_Ys e / branch_tap e)%num.

(** Shunt admittance of a bus, per unit. *)
Definition bus_Ysh (self : Case.t) (v : Bus.t) : num :=
  ((ofR (Bus.g_shunt v) + nj * ofR (Bus.b_shunt v))
   / ofR (Case.base_mva self))%num.

(** The value [v] in column [k], nothing elsewhere. *)
Definition at_col (c k : nat) (v : num) : num :=
  if (c =? k)%nat then v else n0.

(** What [getYbus] stores, branch by branch and bus by bus. *)
Definition Yf_entries (branches : list (Branch.t Bus.t)) : list entry :=
  map (fun ke => (fst ke, from_i (snd ke), branch_Yff (snd ke)))
      (enumerate branches)
  ++ map (fun ke => (fst ke, to_i (snd ke), branch_Yft (snd ke)))
         (enumerate branches).

Definition Yt_entries (branches : list (Branch.t Bus.t)) : list entry :=
  map (fun ke => (fst ke, from_i (snd ke), branch_Ytf (snd ke)))
      (enumerate branches)
  ++ map (fun ke => (fst ke, to_i (snd ke), branch_Ytt (snd ke)))
         (enumerate branches).

Definition Ybus_entries (self : Case.t) (buses : list Bus.t)
           (branches : list (Branch.t Bus.t)) : list entry :=
  (mul_entries (map (fun ke => (from_i (snd ke), fst ke, n1))
                    (enumerate branches))
               (Yf_entries branches)
   ++ mul_entries (map (fun ke => (to_i (snd ke), fst ke, n1))
                       (enumerate branches))
                  (Yt_entries branches))
  ++ map (fun ke => (fst ke, fst ke, bus_Ysh self (snd ke)))
         (enumerate buses).

(** A plain line: non-zero impedance, no charging, no tap, no shift. *)
Definition plain_line (e : Branch.t Bus.t) : Prop :=
  (Branch.r e <> 0 \/ Branch.x e <> 0)
  /\ Branch.b e = 0
  /\ (Branch.ratio e = 0 \/ Branch.ratio e = 1)
  /\ Branch.phase_shift e = 0.

(** A bus without shunt conductance and susceptance. *)
Definition no_shunt (v : Bus.t) : Prop :=
  Bus.g_shunt v = 0 /\ Bus.b_shunt v = 0.

(** The data of B': bus shunt susceptance zeroed, charging susceptance
    zeroed, tap ratio forced to 1 and, for "XB", resistance zeroed. *)
Definition Bp_bus (v : Bus.t) : Bus.t :=
  Bus.mk (Bus.name v) (Bus.type v) (Bus.v_base v) (Bus.v_magnitude v)
         (Bus.v_angle v) (Bus.v_max v) (Bus.v_min v) (Bus.p_demand v)
         (Bus.q_demand v) (Bus.g_shunt v) 0 (Bus.area v) (Bus.zone v)
         (Bus.p_lmbda v) (Bus.q_lmbda v) (Bus.mu_vmin v) (Bus.mu_vmax v)
         (Bus._i v).

Definition Bp_branch (method : string) (e : Branch.t Bus.t)
  : Branch.t Bus.t :=
  Branch.mk (Branch.from_bus e) (Branch.to_bus e) (Branch.name e)
            (Branch.online e)
            (if String.eqb method "XB" then 0 else Branch.r e)
            (Branch.x e) 0
            (Branch.rate_a e) (Branch.rate_b e) (Branch.rate_c e)
            1 (Branch.phase_shift e)
            (Branch.ang_min e) (Branch.ang_max e)
            (Branch.p_from e) (Branch.p_to e) (Branch.q_from e)
            (Branch.q_to e) (Branch.mu_s_from e) (Branch.mu_s_to e)
            (Branch.mu_angmin e) (Branch.mu_angmax e) (Branch._i e).

(** The data of B'': phase shift zeroed and, for "BX", resistance
    zeroed; charging and tap ratio as they are. *)
Definition Bpp_branch (method : string) (e : Branch.t Bus.t)
  : Branch.t Bus.t :=
  Branch.mk (Branch.from_bus e) (Branch.to_bus e) (Branch.name e)
            (Branch.online e)
            (if String.eqb method "BX" then 0 else Branch.r e)
            (Branch.x e) (Branch.b e)
            (Branch.rate_a e) (Branch.rate_b e) (Branch.rate_c e)
            (Branch.ratio e) 0
            (Branch.ang_min e) (Branch.ang_max e)
            (Branch.p_from e) (Branch.p_to e) (Branch.q_from e)
            (Branch.q_to e) (Branch.mu_s_from e) (Branch.mu_s_to e)
            (Branch.mu_angmin e) (Branch.mu_angmax e) (Branch._i e).

(** What [reset] leaves of a bus: every field but the lambdas and the
    voltage-limit multipliers. *)
Definition bus_kept (b b' : Bus.t) : Prop :=
  Bus.name b' = Bus.name b /\ Bus.type b' = Bus.type b
  /\ Bus.v_base b' = Bus.v_base b
  /\ Bus.v_magnitude b' = Bus.v_magnitude b
  /\ Bus.v_angle b' = Bus.v_angle b
  /\ Bus.v_max b' = Bus.v_max b /\ Bus.v_min b' = Bus.v_min b
  /\ Bus.p_demand b' = Bus.p_demand b /\ Bus.q_demand b' = Bus.q_demand b
  /\ Bus.g_shunt b' = Bus.g_shunt b /\ Bus.b_shunt b' = Bus.b_shunt b
  /\ Bus.area b' = Bus.area b /\ Bus.zone b' = Bus.zone b
  /\ Bus._i b' = Bus._i b.

Definition bus_cleared (b : Bus.t) : Prop :=
  Bus.p_lmbda b = 0 /\ Bus.q_lmbda b = 0
  /\ Bus.mu_vmin b = 0 /\ Bus.mu_vmax b = 0.

(** What [reset] leaves of a branch: its buses and every parameter. *)
Definition branch_kept {B : Type} (l l' : Branch.t B) : Prop :=
  Branch.from_bus l' = Branch.from_bus l
  /\ Branch.to_bus l' = Branch.to_bus l
  /\ Branch.name l' = Branch.name l /\ Branch.online l' = Branch.online l
  /\ Branch.r l' = Branch.r l /\ Branch.x l' = Branch.x l
  /\ Branch.b l' = Branch.b l
  /\ Branch.rate_a l' = Branch.rate_a l /\ Branch.rate_b l' = Branch.rate_b l
  /\ Branch.rate_c l' = Branch.rate_c l
  /\ Branch.ratio l' = Branch.ratio l
  /\ Branch.phase_shift l' = Branch.phase_shift l
  /\ Branch.ang_min l' = Branch.ang_min l
  /\ Branch.ang_max l' = Branch.ang_max l
  /\ Branch._i l' = Branch._i l.

Definition branch_cleared {B : Type} (l : Branch.t B) : Prop :=
  Branch.p_from l = Fin 0 /\ Branch.q_from l = Fin 0
  /\ Branch.p_to l = Fin 0 /\ Branch.q_to l = Fin 0
  /\ Branch.mu_s_from l = 0 /\ Branch.mu_s_to l = 0
  /\ Branch.mu_angmin l = 0 /\ Branch.mu_angmax l = 0.

(** Total injected complex bus power [S = V * conj (Ybus * V)]. *)
Definition injected (Ybus : smatrix) (V : list C) : option array :=
  YV <- sp_matvec Ybus (map Fin V) ;;
  broadcast2 nmul (map Fin V) (a_conj YV).














(* ================================================================== *)
(** ** Small networks *)

(** A bus with the defaults of [Bus.__init__], at index [i]. *)
Definition bus_n (i : nat) : Bus.t := Bus.set_i (Bus.init None PQ) i.

(** The same with a shunt conductance [g] (MW at 1 p.u.). *)
Definition bus_g (i : nat) (g : R) : Bus.t :=
  Bus.mk None PQ 100 1 0 1.1 0.9 0 0 g 0 1 1 0 0 0 0 i.

(** An in-service branch; the other fields as in [Branch.__init__]. *)
Definition line {B : Type} (f t : B) (r x b ratio phase_shift : R)
  : Branch.t B :=
  Branch.mk f t None true r x b 999 999 999 ratio phase_shift (-360) 360
            (Fin 0) (Fin 0) (Fin 0) (Fin 0) 0 0 0 0 0%nat.

(** A case of base power [base_mva] that owns nothing yet. *)
Definition case_of (base_mva : R) : Case.t := Case.mk None base_mva [] [] [].

(** A bus of type [type] at index 0 with the other defaults. *)
Definition bus_of (type : string) : Bus.t := Bus.init None type.

(** An in-service generator at the bus in position [h], dispatch 0. *)
Definition gen_at (h : nat) : Generator.t nat :=
  Generator.mk h true false (Fin 0) (Fin 0).

(** One PQ bus, nothing else. *)
Definition case_one_bus : Case.t :=
  Case.mk None 100 [bus_of PQ] [] [].

(** A PQ bus, then the reference bus with the only generator. *)
Definition case_ref_second : Case.t :=
  Case.mk None 100 [bus_of PQ; bus_of REFERENCE] [] [gen_at 1].

(** A [Generator.reset] that clears nothing. *)
Definition keep_generator (g : Generator.t nat) : Generator.t nat := g.

(** [diag (1 + j, 2 + 3j)] as a bus admittance matrix. *)
Definition Y_diag : smatrix :=
  mkSM 2 2 [(0%nat, 0%nat, Fin (mkC 1 1)); (1%nat, 1%nat, Fin (mkC 2 3))].





(* ================================================================== *)
(** ** Arithmetic of array entries *)

Arguments nadd : simpl never.
Arguments nmul : simpl never.
Arguments ndiv : simpl never.
Arguments nneg : simpl never.
Arguments nconj : simpl never.
Arguments nexp : simpl never.

Lemma C_eq : forall a b : C, Re a = Re b -> Im a = Im b -> a = b.
Proof. intros [a1 a2] [b1 b2]; simpl; intros; subst; reflexivity. Qed.

Lemma Cadd_0_r : forall a, Cadd a C0 = a.
Proof. intros; apply C_eq; simpl; ring. Qed.

Lemma Cadd_0_l : forall a, Cadd C0 a = a.
Proof. intros; apply C_eq; simpl; ring. Qed.

Lemma Cadd_comm : forall a b, Cadd a b = Cadd b a.
Proof. intros; apply C_eq; simpl; ring. Qed.

Lemma Cadd_assoc : forall a b c, Cadd a (Cadd b c) = Cadd (Cadd a b) c.
Proof. intros; apply C_eq; simpl; ring. Qed.

Lemma Cmul_1_l : forall a, Cmul C1 a = a.
Proof. intros; apply C_eq; simpl; ring. Qed.


Lemma nadd_0_r : forall a, (a + n0)%num = a.
Proof. intros [a|]; cbv [nadd lift2 n0]; [rewrite Cadd_0_r|]; reflexivity. Qed.

Lemma nadd_0_l : forall a, (n0 + a)%num = a.
Proof. intros [a|]; cbv [nadd lift2 n0]; [rewrite Cadd_0_l|]; reflexivity. Qed.

Lemma nadd_comm : forall a b, (a + b)%num = (b + a)%num.
Proof.
  intros [a|] [b|]; cbv [nadd lift2]; try reflexivity.
  now rewrite Cadd_comm.
Qed.

Lemma nadd_assoc : forall a b c, (a + (b + c))%num = ((a + b) + c)%num.
Proof.
  intros [a|] [b|] [c|]; cbv [nadd lift2]; try reflexivity.
  now rewrite Cadd_assoc.
Qed.

Lemma nmul_1_l : forall a, (n1 * a)%num = a.
Proof. intros [a|]; cbv [nmul lift2 n1]; [rewrite Cmul_1_l|]; reflexivity. Qed.

Lemma nsum_app : forall l1 l2, nsum (l1 ++ l2) = (nsum l1 + nsum l2)%num.
Proof.
  induction l1 as [|a l1 IH]; intros l2; simpl.
  - now rewrite nadd_0_l.
  - now rewrite IH, nadd_assoc.
Qed.

Lemma nsum_zero : forall (A : Type) (l : list A),
    nsum (map (fun _ => n0) l) = n0.
Proof.
  induction l as [|a l IH]; simpl; [reflexivity|].
  now rewrite IH, nadd_0_l.
Qed.

Lemma nsum_map_add : forall (A : Type) (f g : A -> num) (l : list A),
    nsum (map (fun a => (f a + g a)%num) l)
    = (nsum (map f l) + nsum (map g l))%num.
Proof.
  induction l as [|a l IH]; simpl.
  - now rewrite nadd_0_l.
  - rewrite IH, !nadd_assoc. f_equal.
    rewrite <- !nadd_assoc. f_equal. apply nadd_comm.
Qed.

Lemma nsum_ext : forall (A : Type) (f g : A -> num) (l : list A),
    (forall a, In a l -> f a = g a) ->
    nsum (map f l) = nsum (map g l).
Proof.
  induction l as [|a l IH]; simpl; intros H; [reflexivity|].
  rewrite H by (left; reflexivity). rewrite IH; [reflexivity|].
  intros; apply H; right; assumption.
Qed.

(** Sums over two lists may be taken in either order. *)
Lemma nsum_swap : forall (A B : Type) (f : A -> B -> num)
                         (la : list A) (lb : list B),
    nsum (map (fun a => nsum (map (fun b => f a b) lb)) la)
    = nsum (map (fun b => nsum (map (fun a => f a b) la)) lb).
Proof.
  induction la as [|a la IH]; intros lb; simpl.
  - now rewrite nsum_zero.
  - rewrite IH. now rewrite <- nsum_map_add.
Qed.

(* ================================================================== *)
(** ** Arrays built from one list *)

Lemma zipWith_map : forall (A B D E : Type) (f : B -> D -> E)
                           (g : A -> B) (h : A -> D) (l : list A),
    zipWith f (map g l) (map h l) = map (fun a => f (g a) (h a)) l.
Proof.
  induction l as [|a l IH]; simpl; [reflexivity|]. now rewrite IH.
Qed.

Lemma zipWith_length : forall (A B D : Type) (f : A -> B -> D) a b,
    length a = length b -> length (zipWith f a b) = length a.
Proof.
  induction a as [|x a IH]; destruct b as [|y b]; simpl; intros H;
    try discriminate; [reflexivity|].
  f_equal. apply IH. now injection H.
Qed.

Lemma ones_map : forall (A : Type) (l : list A),
    ones (length l) = map (fun _ => n1) l.
Proof.
  unfold ones. induction l as [|a l IH]; simpl; [reflexivity|].
  now rewrite IH.
Qed.

Lemma length_set_nth : forall (A : Type) (a : list A) i v,
    length (set_nth a i v) = length a.
Proof.
  induction a as [|y a IH]; intros [|i] v; simpl; try reflexivity.
  now rewrite IH.
Qed.

Lemma nth_set_nth : forall (A : Type) (a : list A) i v k d,
    (k < length a)%nat ->
    nth k (set_nth a i v) d = if (k =? i)%nat then v else nth k a d.
Proof.
  induction a as [|y a IH]; intros i v k d Hk; simpl in Hk; [lia|].
  destruct i as [|i], k as [|k]; simpl; try reflexivity.
  apply IH. lia.
Qed.

Lemma length_assign_at : forall idx a b,
    length (assign_at a idx b) = length a.
Proof.
  unfold assign_at.
  induction idx as [|i idx IH]; intros a b; simpl; [reflexivity|].
  now rewrite IH, length_set_nth.
Qed.

Lemma nth_assign_at : forall idx a b k d,
    (k < length a)%nat ->
    nth k (assign_at a idx b) d
    = if existsb (Nat.eqb k) idx then nth k b n0 else nth k a d.
Proof.
  unfold assign_at.
  induction idx as [|i idx IH]; intros a b k d Hk; simpl; [reflexivity|].
  rewrite IH by (now rewrite length_set_nth).
  rewrite nth_set_nth by assumption.
  destruct (k =? i)%nat eqn:E; simpl.
  - apply Nat.eqb_eq in E; subst. now destruct (existsb _ idx).
  - reflexivity.
Qed.

(** Positions and elements of [combine (seq s n) l]. *)
Lemma in_combine_seq : forall (A : Type) (l : list A) s k e,
    In (k, e) (combine (seq s (length l)) l)
    <-> (s <= k)%nat /\ nth_error l (k - s) = Some e.
Proof.
  induction l as [|a l IH]; intros s k e; simpl.
  - split; [tauto|]. intros [_ H]. destruct (k - s)%nat; discriminate.
  - rewrite IH. split.
    + intros [H | [H1 H2]].
      * injection H as <- <-. rewrite Nat.sub_diag. split; [lia|reflexivity].
      * split; [lia|]. replace (k - s)%nat with (S (k - S s)) by lia.
        exact H2.
    + intros [H1 H2]. destruct (Nat.eq_dec s k) as [->|Hne].
      * left. rewrite Nat.sub_diag in H2. simpl in H2. congruence.
      * right. split; [lia|].
        replace (k - s)%nat with (S (k - S s)) in H2 by lia. exact H2.
Qed.

Lemma in_enumerate : forall (A : Type) (l : list A) k e,
    In (k, e) (enumerate l) <-> nth_error l k = Some e.
Proof.
  intros. unfold enumerate. rewrite in_combine_seq, Nat.sub_0_r.
  split; [tauto|]. split; [lia|assumption].
Qed.

(** The positions [enumerate] keeps under a test on the element. *)
Lemma existsb_filter_enumerate :
  forall (A : Type) (P : A -> bool) (l : list A) k,
    existsb (Nat.eqb k)
            (map fst (filter (fun ie => P (snd ie)) (enumerate l)))
    = match nth_error l k with Some e => P e | None => false end.
Proof.
  intros A P l k.
  destruct (existsb _ _) eqn:E.
  - apply existsb_exists in E. destruct E as [k' [Hin Hk]].
    apply Nat.eqb_eq in Hk; subst k'.
    apply in_map_iff in Hin. destruct Hin as [[k' e] [Hf Hin]].
    simpl in Hf; subst k'.
    apply filter_In in Hin. destruct Hin as [Hin HP].
    apply in_enumerate in Hin. rewrite Hin. symmetry; exact HP.
  - destruct (nth_error l k) as [e|] eqn:Hn; [|reflexivity].
    destruct (P e) eqn:HP; [|reflexivity].
    assert (existsb (Nat.eqb k)
              (map fst (filter (fun ie => P (snd ie)) (enumerate l)))
            = true) as H; [|congruence].
    apply existsb_exists. exists k. split; [|apply Nat.eqb_refl].
    apply in_map_iff. exists (k, e). split; [reflexivity|].
    apply filter_In. split; [now apply in_enumerate|exact HP].
Qed.

Lemma nth_map_some : forall (A B : Type) (f : A -> B) (l : list A) k e d,
    nth_error l k = Some e -> nth k (map f l) d = f e.
Proof.
  induction l as [|a l IH]; intros [|k] e d H; simpl in *; try discriminate.
  - congruence.
  - now apply IH.
Qed.

(** The tap magnitudes of [getYbus]: ones, overwritten where a ratio is
    set. *)
Lemma tap_array : forall (branches : list (Branch.t Bus.t)),
    (if (0 <? length (map fst (filter (fun ie => Rneb (Branch.ratio (snd ie)) 0)
                                      (enumerate branches))))%nat
     then assign_at (ones (length branches))
                    (map fst (filter (fun ie => Rneb (Branch.ratio (snd ie)) 0)
                                     (enumerate branches)))
                    (map (fun e => ofR (Branch.ratio e)) branches)
     else ones (length branches))
    = map branch_ratio branches.
Proof.
  intros branches.
  set (nl := length branches).
  set (i_trx := map fst (filter _ _)).
  set (ratio := map _ branches).
  assert ((if (0 <? length i_trx)%nat then assign_at (ones nl) i_trx ratio
           else ones nl) = assign_at (ones nl) i_trx ratio) as ->.
  { destruct i_trx; reflexivity. }
  apply (nth_ext _ _ n0 n0).
  - rewrite length_assign_at, length_map. unfold ones, nl.
    apply repeat_length.
  - intros k Hk. rewrite length_assign_at in Hk.
    rewrite nth_assign_at by assumption.
    unfold ones in Hk; rewrite repeat_length in Hk.
    unfold i_trx.
    rewrite (existsb_filter_enumerate _
               (fun e => Rneb (Branch.ratio e) 0) branches k).
    destruct (nth_error branches k) as [e|] eqn:Hn.
    + unfold ratio.
      rewrite !(nth_map_some _ _ _ _ _ _ _ Hn).
      unfold branch_ratio.
      destruct (Rneb (Branch.ratio e) 0); [reflexivity|].
      unfold ones. rewrite nth_repeat_lt by exact Hk. reflexivity.
    + apply nth_error_None in Hn. unfold nl in Hk. lia.
Qed.

(* ================================================================== *)
(** ** Entries of sparse matrices *)

Lemma gete_app : forall e1 e2 i j,
    gete (e1 ++ e2) i j = (gete e1 i j + gete e2 i j)%num.
Proof.
  intros. unfold gete. now rewrite filter_app, map_app, nsum_app.
Qed.

Lemma gete_cons : forall e es i j,
    gete (e :: es) i j
    = ((if (erow e =? i)%nat && (ecol e =? j)%nat then eval e else n0)
       + gete es i j)%num.
Proof.
  intros. unfold gete. simpl.
  destruct ((erow e =? i)%nat && (ecol e =? j)%nat); simpl.
  - reflexivity.
  - now rewrite nadd_0_l.
Qed.

Lemma combine_app_eq : forall (A B : Type) (a1 a2 : list A) (b1 b2 : list B),
    length a1 = length b1 ->
    combine (a1 ++ a2) (b1 ++ b2) = combine a1 b1 ++ combine a2 b2.
Proof.
  induction a1 as [|x a1 IH]; destruct b1 as [|y b1]; simpl; intros a2' H;
    try discriminate; [reflexivity|].
  intros. f_equal. apply IH. now injection H.
Qed.

Lemma combine3_map : forall (A : Type) (col : A -> nat) (val : A -> num)
                            (l : list A) s,
    combine (combine (seq s (length l)) (map col l)) (map val l)
    = map (fun ke => (fst ke, col (snd ke), val (snd ke)))
          (combine (seq s (length l)) l).
Proof.
  induction l as [|a l IH]; intros s; simpl; [reflexivity|].
  now rewrite IH.
Qed.

Lemma combine3_diag : forall (A : Type) (val : A -> num) (l : list A) s,
    combine (combine (seq s (length l)) (seq s (length l))) (map val l)
    = map (fun ke => (fst ke, fst ke, val (snd ke)))
          (combine (seq s (length l)) l).
Proof.
  induction l as [|a l IH]; intros s; simpl; [reflexivity|].
  now rewrite IH.
Qed.

(** One stored value per row: row [r] holds [val] in column [col]. *)
Lemma gete_scatter :
  forall (A : Type) (col : nat * A -> nat) (val : nat * A -> num)
         (l : list A) s r c,
    gete (map (fun ke => (fst ke, col ke, val ke))
              (combine (seq s (length l)) l)) r c
    = if (s <=? r)%nat
      then match nth_error l (r - s) with
           | Some e => at_col c (col (r, e)) (val (r, e))
           | None => n0
           end
      else n0.
Proof.
  induction l as [|a l IH]; intros s r c; simpl.
  - destruct (s <=? r)%nat; [|reflexivity].
    now destruct (r - s)%nat.
  - rewrite gete_cons, IH. unfold erow, ecol, eval; cbn [fst snd].
    destruct (Nat.eq_dec s r) as [->|Hne].
    + rewrite Nat.eqb_refl, Nat.leb_refl, Nat.sub_diag.
      cbn [andb nth_error].
      replace (S r <=? r)%nat with false
        by (symmetry; apply Nat.leb_gt; lia).
      rewrite nadd_0_r. unfold at_col. now rewrite Nat.eqb_sym.
    + replace (s =? r)%nat with false
        by (symmetry; apply Nat.eqb_neq; exact Hne).
      cbn [andb]. rewrite nadd_0_l.
      destruct (s <=? r)%nat eqn:E.
      * apply Nat.leb_le in E.
        replace (S s <=? r)%nat with true
          by (symmetry; apply Nat.leb_le; lia).
        replace (r - s)%nat with (S (r - S s)) by lia. reflexivity.
      * apply Nat.leb_gt in E.
        replace (S s <=? r)%nat with false
          by (symmetry; apply Nat.leb_gt; lia).
        reflexivity.
Qed.

Lemma gete_enumerate :
  forall (A : Type) (col : nat * A -> nat) (val : nat * A -> num)
         (l : list A) r c,
    gete (map (fun ke => (fst ke, col ke, val ke)) (enumerate l)) r c
    = match nth_error l r with
      | Some e => at_col c (col (r, e)) (val (r, e))
      | None => n0
      end.
Proof.
  intros. unfold enumerate. rewrite gete_scatter. simpl.
  now rewrite Nat.sub_0_r.
Qed.

(** Row [k] of [es], moved to row [i'] and multiplied by one. *)
Lemma gete_mul_row : forall es i' k i j,
    gete (map (fun b => (i', ecol b, (n1 * eval b)%num))
              (filter (fun b => (erow b =? k)%nat) es)) i j
    = if (i' =? i)%nat then gete es k j else n0.
Proof.
  induction es as [|e es IH]; intros i' k i j; simpl.
  - now destruct (i' =? i)%nat.
  - rewrite (gete_cons e es).
    destruct (erow e =? k)%nat eqn:Ek; simpl.
    + rewrite gete_cons, IH. unfold erow at 1, ecol at 1, eval at 1; simpl.
      rewrite nmul_1_l.
      destruct (i' =? i)%nat; simpl; [reflexivity|apply nadd_0_l].
    + rewrite IH. destruct (i' =? i)%nat; [|reflexivity].
      now rewrite nadd_0_l.
Qed.

(** The product of a transposed 0/1 incidence matrix with [es]: row [i]
    gathers the rows of [es] whose branch ends at bus [i]. *)
Lemma gete_mul_incidence :
  forall (A : Type) (col : A -> nat) (L : list (nat * A)) es i j,
    gete (mul_entries (map (fun ke => (col (snd ke), fst ke, n1)) L) es) i j
    = nsum (map (fun ke => if (col (snd ke) =? i)%nat
                           then gete es (fst ke) j else n0) L).
Proof.
  induction L as [|[k a] L IH]; intros es i j; simpl; [reflexivity|].
  unfold mul_entries in *. simpl. rewrite gete_app, IH.
  unfold erow at 1, ecol at 2, eval at 1; simpl.
  now rewrite gete_mul_row.
Qed.

(* ================================================================== *)
(** ** [getYbus] on a well-indexed network *)

Lemma csc_matrix_some : forall data i j m n,
    length i = length data -> length j = length data ->
    Forall (fun r => (r < m)%nat) i -> Forall (fun c => (c < n)%nat) j ->
    csc_matrix data i j m n = Some (mkSM m n (combine (combine i j) data)).
Proof.
  intros data i j m n Hi Hj Fi Fj. unfold csc_matrix.
  rewrite Hi, Hj, !Nat.eqb_refl. simpl.
  assert (forallb (fun r => (r <? m)%nat) i = true) as ->.
  { apply forallb_forall. intros r Hr. apply Nat.ltb_lt.
    rewrite Forall_forall in Fi. now apply Fi. }
  assert (forallb (fun c => (c <? n)%nat) j = true) as ->.
  { apply forallb_forall. intros c Hc. apply Nat.ltb_lt.
    rewrite Forall_forall in Fj. now apply Fj. }
  reflexivity.
Qed.

Lemma Forall_seq_lt : forall n, Forall (fun r => (r < n)%nat) (seq 0 n).
Proof. intros n. apply Forall_forall. intros r Hr. apply in_seq in Hr. lia. Qed.

Lemma indexed_from : forall buses branches,
    indexed buses branches ->
    Forall (fun c => (c < length buses)%nat) (map from_i branches).
Proof.
  intros buses branches H. apply Forall_map.
  eapply Forall_impl; [|exact H]. simpl. tauto.
Qed.

Lemma indexed_to : forall buses branches,
    indexed buses branches ->
    Forall (fun c => (c < length buses)%nat) (map to_i branches).
Proof.
  intros buses branches H. apply Forall_map.
  eapply Forall_impl; [|exact H]. simpl. tauto.
Qed.

Lemma getYbus_some : forall self buses branches,
    indexed buses branches ->
    getYbus self (Some buses) (Some branches)
    = Some (mkSM (length buses) (length buses)
                 (Ybus_entries self buses branches),
            mkSM (length branches) (length buses) (Yf_entries branches),
            mkSM (length branches) (length buses) (Yt_entries branches)).
Proof.
  intros self buses branches Hidx.
  pose proof (indexed_from _ _ Hidx) as Hf.
  pose proof (indexed_to _ _ Hidx) as Ht.
  pose proof (Forall_seq_lt (length branches)) as Hil.
  pose proof (Forall_seq_lt (length buses)) as Hib.
  unfold getYbus. lazy beta iota zeta.
  rewrite tap_array.
  unfold a_div, a_add, a_mul, a_scale, a_divs, a_neg, a_conj, a_exp.
  rewrite !ones_map.
  repeat (rewrite ?map_map, ?zipWith_map).
  rewrite !csc_matrix_some;
    rewrite ?length_app, ?length_map, ?length_seq;
    try reflexivity; try (apply Forall_app; split); try assumption.
  unfold sp_mul, sp_add, sp_T.
  repeat (cbn [nrows ncols entries andb]; rewrite ?Nat.eqb_refl).
  rewrite !combine_app_eq by (now rewrite length_seq, length_map).
  rewrite !combine_app_eq
    by (now rewrite !length_combine, !length_seq, !length_map, !Nat.min_id).
  rewrite !combine3_map, !combine3_diag, !map_map.
  reflexivity.
Qed.

Lemma Yf_get : forall branches l e c,
    nth_error branches l = Some e ->
    gete (Yf_entries branches) l c
    = (at_col c (from_i e) (branch_Yff e)
       + at_col c (to_i e) (branch_Yft e))%num.
Proof.
  intros branches l e c H. unfold Yf_entries.
  rewrite gete_app.
  rewrite (gete_enumerate _ (fun ke => from_i (snd ke))
                          (fun ke => branch_Yff (snd ke))).
  rewrite (gete_enumerate _ (fun ke => to_i (snd ke))
                          (fun ke => branch_Yft (snd ke))).
  now rewrite H.
Qed.

Lemma Yt_get : forall branches l e c,
    nth_error branches l = Some e ->
    gete (Yt_entries branches) l c
    = (at_col c (from_i e) (branch_Ytf e)
       + at_col c (to_i e) (branch_Ytt e))%num.
Proof.
  intros branches l e c H. unfold Yt_entries.
  rewrite gete_app.
  rewrite (gete_enumerate _ (fun ke => from_i (snd ke))
                          (fun ke => branch_Ytf (snd ke))).
  rewrite (gete_enumerate _ (fun ke => to_i (snd ke))
                          (fun ke => branch_Ytt (snd ke))).
  now rewrite H.
Qed.

(** [Ybus = Cf.T * Yf + Ct.T * Yt + Ysh_diag], entry by entry. *)
Lemma Ybus_get : forall self buses branches i j,
    gete (Ybus_entries self buses branches) i j
    = (nsum (map (fun le => if (from_i (snd le) =? i)%nat
                            then gete (Yf_entries branches) (fst le) j
                            else n0) (enumerate branches))
       + nsum (map (fun le => if (to_i (snd le) =? i)%nat
                              then gete (Yt_entries branches) (fst le) j
                              else n0) (enumerate branches))
       + match nth_error buses i with
         | Some v => at_col j i (bus_Ysh self v)
         | None => n0
         end)%num.
Proof.
  intros. unfold Ybus_entries.
  rewrite !gete_app, !gete_mul_incidence.
  rewrite (gete_enumerate _ (fun ke => fst ke)
                          (fun ke => bus_Ysh self (snd ke))).
  reflexivity.
Qed.

(** C1. On a bus list and a branch list whose branches end at buses of
    the list, [getYbus] returns [(Ybus, Yf, Yt)]: row [l] of [Yf] holds
    [Yff = (Ys + j Bc/2) / (tap conj(tap))] in the from-bus column and
    [Yft = -Ys / conj(tap)] in the to-bus column, row [l] of [Yt] holds
    [Ytf = -Ys / tap] and [Ytt = Ys + j Bc/2] there, with
    [Ys = online / (r + jx)], [Bc = online b] and the tap of magnitude 1
    unless a non-zero ratio is set, times [exp (j shift)]; and
    [Ybus = Cf^T Yf + Ct^T Yt + diag ((g_shunt + j b_shunt) / base_mva)]
    for the 0/1 incidence matrices [Cf], [Ct] of the from and to buses.
    Entries scattered to one position add up, as for a branch from a bus
    to itself; between two different buses the four entries are the four
    elements. *)
Theorem getYbus_formulas : forall self buses branches,
    indexed buses branches ->
    exists Ybus Yf Yt,
      getYbus self (Some buses) (Some branches) = Some (Ybus, Yf, Yt)
      /\ nrows Ybus = length buses /\ ncols Ybus = length buses
      /\ nrows Yf = length branches /\ ncols Yf = length buses
      /\ nrows Yt = length branches /\ ncols Yt = length buses
      /\ (forall l e c,
             nth_error branches l = Some e ->
             get Yf l c = (at_col c (from_i e) (branch_Yff e)
                           + at_col c (to_i e) (branch_Yft e))%num
             /\ get Yt l c = (at_col c (from_i e) (branch_Ytf e)
                              + at_col c (to_i e) (branch_Ytt e))%num)
      /\ (forall i j,
             get Ybus i j
             = (nsum (map (fun le => if (from_i (snd le) =? i)%nat
                                     then get Yf (fst le) j else n0)
                          (enumerate branches))
                + nsum (map (fun le => if (to_i (snd le) =? i)%nat
                                       then get Yt (fst le) j else n0)
                            (enumerate branches))
                + match nth_error buses i with
                  | Some v => at_col j i (bus_Ysh self v)
                  | None => n0
                  end)%num)
      /\ (forall l e,
             nth_error branches l = Some e ->
             from_i e <> to_i e ->
             get Yf l (from_i e) = branch_Yff e
             /\ get Yf l (to_i e) = branch_Yft e
             /\ get Yt l (from_i e) = branch_Ytf e
             /\ get Yt l (to_i e) = branch_Ytt e).
Proof.
  intros self buses branches Hidx.
  eexists _, _, _. split; [apply getYbus_some; exact Hidx|].
  cbn [nrows ncols]. repeat (split; [reflexivity|]).
  split; [|split].
  - intros l e c H. unfold get; cbn [entries].
    split; [now apply Yf_get | now apply Yt_get].
  - intros i j. unfold get; cbn [entries]. apply Ybus_get.
  - intros l e H Hne. unfold get; cbn [entries].
    rewrite !(Yf_get _ _ _ _ H), !(Yt_get _ _ _ _ H). unfold at_col.
    rewrite !Nat.eqb_refl.
    replace (from_i e =? to_i e)%nat with false
      by (symmetry; now apply Nat.eqb_neq).
    replace (to_i e =? from_i e)%nat with false
      by (symmetry; apply Nat.eqb_neq; congruence).
    rewrite !nadd_0_r, !nadd_0_l. repeat split; reflexivity.
Qed.

(* ================================================================== *)
(** ** Lines without tap, shift and charging *)

Lemma ndiv_fin : forall a b, b <> C0 -> (Fin a / Fin b)%num = Fin (Cdiv a b).
Proof.
  intros a b H. unfold ndiv. destruct (Ceq_dec b C0); [contradiction|].
  reflexivity.
Qed.

Lemma ndiv_zero : forall x, (x / n0)%num = NonFinite.
Proof.
  intros [a|]; unfold ndiv, n0; [|reflexivity].
  destruct (Ceq_dec C0 C0); [reflexivity|congruence].
Qed.

Lemma C1_neq_0 : C1 <> C0.
Proof. intros H. apply (f_equal Re) in H. simpl in H. lra. Qed.

Lemma RtoC_neq_0 : forall a, a <> 0 -> RtoC a <> C0.
Proof. intros a Ha H. apply (f_equal Re) in H. simpl in H. contradiction. Qed.

Lemma Cdiv_1_r : forall a, Cdiv a C1 = a.
Proof. intros. apply C_eq; unfold Cdiv, Cnorm2; simpl; field. Qed.

Lemma ndiv_1_r : forall x, (x / n1)%num = x.
Proof.
  intros [a|]; [|reflexivity]. unfold n1.
  rewrite ndiv_fin by apply C1_neq_0. now rewrite Cdiv_1_r.
Qed.

Lemma Cexp_j0 : Cexp (Cmul Ci (RtoC 0)) = C1.
Proof.
  unfold Cexp, Cmul, Ci, RtoC, C1; simpl.
  replace (0 * 0 - 1 * 0) with 0 by ring.
  replace (0 * 0 + 1 * 0) with 0 by ring.
  rewrite exp_0, cos_0, sin_0. f_equal; ring.
Qed.

Lemma Rneb_refl : forall a, Rneb a a = false.
Proof. intros. unfold Rneb. destruct (Req_dec_T a a); congruence. Qed.

(** No transformer (ratio 0, or ratio 1) and no phase shift: tap 1. *)
Lemma branch_tap_unit : forall e,
    Branch.ratio e = 0 \/ Branch.ratio e = 1 ->
    Branch.phase_shift e = 0 ->
    branch_tap e = n1.
Proof.
  intros e Hr Hs. unfold branch_tap, deg2rad, branch_ratio. rewrite Hs.
  replace (0 * PI / 180) with 0 by (unfold Rdiv; ring).
  assert ((if Rneb (Branch.ratio e) 0 then ofR (Branch.ratio e) else n1)
          = n1) as ->.
  { destruct Hr as [-> | ->]; [now rewrite Rneb_refl|].
    now destruct (Rneb 1 0). }
  unfold nexp, nmul, nj, ofR, lift1, lift2, n1.
  now rewrite Cexp_j0, Cmul_1_l.
Qed.

Lemma branch_Bc_zero : forall e, Branch.b e = 0 -> branch_Bc e = n0.
Proof.
  intros e Hb. unfold branch_Bc, of_bool, ofR, nmul, lift2, n0. rewrite Hb.
  destruct (Branch.online e); f_equal; apply C_eq; simpl; ring.
Qed.

Lemma branch_Ytt_line : forall e, Branch.b e = 0 -> branch_Ytt e = branch_Ys e.
Proof.
  intros e Hb. unfold branch_Ytt. rewrite branch_Bc_zero by assumption.
  assert ((nj * n0 / ofR 2)%num = n0) as ->.
  { unfold nj, n0, ofR, nmul, lift2.
    rewrite ndiv_fin by (apply RtoC_neq_0; lra).
    f_equal. apply C_eq; unfold Cdiv, Cnorm2; simpl; field. }
  apply nadd_0_r.
Qed.

Lemma nconj_1 : nconj n1 = n1.
Proof.
  unfold nconj, n1, lift1. f_equal. apply C_eq; simpl; ring.
Qed.

Lemma branch_Yff_line : forall e,
    Branch.b e = 0 -> branch_tap e = n1 -> branch_Yff e = branch_Ys e.
Proof.
  intros e Hb Ht. unfold branch_Yff.
  rewrite branch_Ytt_line, Ht, nconj_1, nmul_1_l by assumption.
  apply ndiv_1_r.
Qed.

Lemma branch_Yft_line : forall e,
    branch_tap e = n1 -> branch_Yft e = (- branch_Ys e)%num.
Proof.
  intros e Ht. unfold branch_Yft. rewrite Ht, nconj_1. apply ndiv_1_r.
Qed.

Lemma branch_Ytf_line : forall e,
    branch_tap e = n1 -> branch_Ytf e = (- branch_Ys e)%num.
Proof. intros e Ht. unfold branch_Ytf. rewrite Ht. apply ndiv_1_r. Qed.

(** A bus without shunt adds nothing, provided the base power is not 0. *)
Lemma bus_Ysh_zero : forall self v,
    Case.base_mva self <> 0 ->
    Bus.g_shunt v = 0 -> Bus.b_shunt v = 0 ->
    bus_Ysh self v = n0.
Proof.
  intros self v Hb Hg Hs. unfold bus_Ysh. rewrite Hg, Hs.
  unfold ofR, nj, nmul, nadd, lift2, n0.
  rewrite ndiv_fin by (apply RtoC_neq_0; exact Hb).
  f_equal. apply C_eq; unfold Cdiv, Cnorm2; simpl; field; exact Hb.
Qed.

(** With a base power of 0 the shunt term is [0/0]. *)
Lemma bus_Ysh_base_zero : forall self v,
    Case.base_mva self = 0 -> bus_Ysh self v = NonFinite.
Proof.
  intros self v Hb. unfold bus_Ysh. rewrite Hb.
  change (ofR 0) with n0. apply ndiv_zero.
Qed.

Lemma nadd_nonfinite_r : forall x, (x + NonFinite)%num = NonFinite.
Proof. now intros [a|]. Qed.

(* ================================================================== *)
(** ** One branch between two buses *)

Lemma indexed_two : forall b0 b1 e,
    Bus._i b0 = 0%nat -> Bus._i b1 = 1%nat ->
    Branch.from_bus e = b0 -> Branch.to_bus e = b1 ->
    indexed [b0; b1] [e].
Proof.
  intros b0 b1 e H0 H1 Hf Ht. constructor; [|constructor].
  unfold from_i, to_i. rewrite Hf, Ht, H0, H1. simpl. lia.
Qed.

(** The four entries of [Ybus] for one branch from bus 0 to bus 1. *)
Lemma Ybus_two : forall self b0 b1 e,
    from_i e = 0%nat -> to_i e = 1%nat ->
    let Y := gete (Ybus_entries self [b0; b1] [e]) in
    Y 0%nat 0%nat = (branch_Yff e + bus_Ysh self b0)%num
    /\ Y 0%nat 1%nat = branch_Yft e
    /\ Y 1%nat 0%nat = branch_Ytf e
    /\ Y 1%nat 1%nat = (branch_Ytt e + bus_Ysh self b1)%num.
Proof.
  intros self b0 b1 e Hf Ht Y. unfold Y.
  rewrite !Ybus_get. unfold enumerate.
  cbn [length seq combine map nsum fold_right fst snd nth_error].
  rewrite Hf, Ht. cbn [Nat.eqb].
  rewrite !(Yf_get [e] 0 e _ eq_refl), !(Yt_get [e] 0 e _ eq_refl).
  rewrite Hf, Ht. unfold at_col. cbn [Nat.eqb].
  rewrite ?nadd_0_r, ?nadd_0_l. repeat split; reflexivity.
Qed.

(** C2 (amended).  In a case whose base power is not 0, two buses
    indexed 0 and 1 without shunt and one in-service branch from bus 0 to
    bus 1 with resistance [r], reactance [x], no charging, no tap ratio
    and no phase shift give [Ybus = [[y, -y], [-y, y]]] with
    [y = 1 / (r + jx)]. *)
Theorem getYbus_single_line : forall self b0 b1 e,
    Case.base_mva self <> 0 ->
    Bus._i b0 = 0%nat -> Bus._i b1 = 1%nat ->
    Bus.g_shunt b0 = 0 -> Bus.b_shunt b0 = 0 ->
    Bus.g_shunt b1 = 0 -> Bus.b_shunt b1 = 0 ->
    Branch.from_bus e = b0 -> Branch.to_bus e = b1 ->
    Branch.online e = true ->
    Branch.b e = 0 -> Branch.ratio e = 0 -> Branch.phase_shift e = 0 ->
    exists Ybus Yf Yt,
      getYbus self (Some [b0; b1]) (Some [e]) = Some (Ybus, Yf, Yt)
      /\ nrows Ybus = 2%nat /\ ncols Ybus = 2%nat
      /\ let y := (n1 / (ofR (Branch.r e) + nj * ofR (Branch.x e)))%num in
         get Ybus 0 0 = y /\ get Ybus 0 1 = (- y)%num
         /\ get Ybus 1 0 = (- y)%num /\ get Ybus 1 1 = y.
Proof.
  intros self b0 b1 e Hbase H0 H1 Hg0 Hs0 Hg1 Hs1 Hf Ht Hon Hb Hr Hsh.
  assert (from_i e = 0%nat) as Hfi by (unfold from_i; now rewrite Hf).
  assert (to_i e = 1%nat) as Hti by (unfold to_i; now rewrite Ht).
  assert (branch_tap e = n1) as Htap
      by (apply branch_tap_unit; [left|]; assumption).
  assert (branch_Ys e
          = (n1 / (ofR (Branch.r e) + nj * ofR (Branch.x e)))%num) as HYs
      by (unfold branch_Ys; now rewrite Hon).
  eexists _, _, _.
  split; [apply getYbus_some; now apply indexed_two|].
  cbn [nrows ncols length]. do 2 (split; [reflexivity|]).
  unfold get; cbn [entries].
  destruct (Ybus_two self b0 b1 e Hfi Hti) as (E00 & E01 & E10 & E11).
  cbv zeta. rewrite E00, E01, E10, E11.
  rewrite branch_Yff_line, branch_Yft_line, branch_Ytf_line,
    branch_Ytt_line by assumption.
  rewrite !bus_Ysh_zero by assumption.
  rewrite !nadd_0_r, HYs. repeat split; reflexivity.
Qed.

(** C2, the claim as it was stated: at a base power of 0 the shunt term
    of a bus without shunt is [0/0], and the diagonal of [Ybus] is not
    [y]. *)
Lemma getYbus_single_line_base_zero :
  (Bus._i (bus_n 0) = 0%nat /\ Bus._i (bus_n 1) = 1%nat
   /\ Bus.g_shunt (bus_n 0) = 0 /\ Bus.b_shunt (bus_n 0) = 0
   /\ Bus.g_shunt (bus_n 1) = 0 /\ Bus.b_shunt (bus_n 1) = 0)
  /\ exists Ybus Yf Yt,
      getYbus (case_of 0) (Some [bus_n 0; bus_n 1])
              (Some [line (bus_n 0) (bus_n 1) 1 0 0 0 0])
      = Some (Ybus, Yf, Yt)
      /\ get Ybus 0 0 = NonFinite
      /\ get Ybus 0 0 <> (n1 / (ofR 1 + nj * ofR 0))%num.
Proof.
  split; [repeat split; reflexivity|].
  eexists _, _, _.
  split; [apply getYbus_some; now apply indexed_two|].
  unfold get; cbn [entries].
  destruct (Ybus_two (case_of 0) (bus_n 0) (bus_n 1)
                     (line (bus_n 0) (bus_n 1) 1 0 0 0 0)
                     eq_refl eq_refl) as (E00 & _).
  cbv zeta in E00. rewrite E00.
  rewrite bus_Ysh_base_zero by reflexivity.
  rewrite nadd_nonfinite_r. split; [reflexivity|].
  unfold ofR, nj, nmul, nadd, lift2, n1.
  rewrite ndiv_fin; [discriminate|].
  intros H. apply (f_equal Re) in H. simpl in H. lra.
Qed.

(* ================================================================== *)
(** ** Row sums of [Ybus] *)

Lemma nsum_at_col_seq : forall n s k v,
    nsum (map (fun j => at_col j k v) (seq s n))
    = if ((s <=? k) && (k <? s + n))%nat then v else n0.
Proof.
  induction n as [|n IH]; intros s k v; simpl.
  - destruct (s <=? k)%nat eqn:E; [|reflexivity].
    apply Nat.leb_le in E.
    now replace (k <? s + 0)%nat with false
      by (symmetry; apply Nat.ltb_ge; lia).
  - rewrite IH. unfold at_col at 1.
    destruct (Nat.eq_dec s k) as [->|Hne].
    + rewrite Nat.eqb_refl, Nat.leb_refl.
      replace (S k <=? k)%nat with false
        by (symmetry; apply Nat.leb_gt; lia).
      replace (k <? k + S n)%nat with true
        by (symmetry; apply Nat.ltb_lt; lia).
      simpl. apply nadd_0_r.
    + replace (s =? k)%nat with false
        by (symmetry; apply Nat.eqb_neq; exact Hne).
      rewrite nadd_0_l.
      replace (S s + n)%nat with (s + S n)%nat by lia.
      destruct (s <=? k)%nat eqn:E.
      * apply Nat.leb_le in E.
        replace (S s <=? k)%nat with true
          by (symmetry; apply Nat.leb_le; lia).
        reflexivity.
      * apply Nat.leb_gt in E.
        replace (S s <=? k)%nat with false
          by (symmetry; apply Nat.leb_gt; lia).
        reflexivity.
Qed.

Lemma nsum_at_col : forall n k v,
    (k < n)%nat -> nsum (map (fun j => at_col j k v) (seq 0 n)) = v.
Proof.
  intros n k v H. rewrite nsum_at_col_seq. simpl.
  now replace (k <? n)%nat with true by (symmetry; apply Nat.ltb_lt; exact H).
Qed.

Lemma branch_Ys_finite : forall e,
    Branch.r e <> 0 \/ Branch.x e <> 0 ->
    exists a, branch_Ys e = Fin a.
Proof.
  intros e H. unfold branch_Ys, of_bool, ofR, nj, nmul, nadd, lift2.
  assert (Cadd (RtoC (Branch.r e)) (Cmul Ci (RtoC (Branch.x e))) <> C0) as Hz.
  { intros E. pose proof (f_equal Re E) as E1. pose proof (f_equal Im E) as E2.
    simpl in E1, E2. destruct H as [H|H]; apply H; lra. }
  destruct (Branch.online e); rewrite ndiv_fin by exact Hz; eauto.
Qed.

Lemma plain_line_cancel : forall e,
    plain_line e ->
    (branch_Yff e + branch_Yft e)%num = n0
    /\ (branch_Ytf e + branch_Ytt e)%num = n0.
Proof.
  intros e (Hz & Hb & Hr & Hs).
  pose proof (branch_tap_unit e Hr Hs) as Ht.
  rewrite branch_Yff_line, branch_Yft_line, branch_Ytf_line,
    branch_Ytt_line by assumption.
  destruct (branch_Ys_finite e Hz) as [a ->].
  unfold nadd, nneg, lift1, lift2, n0.
  split; f_equal; apply C_eq; simpl; ring.
Qed.

Lemma Yf_row_sum : forall buses branches l e,
    indexed buses branches ->
    nth_error branches l = Some e ->
    nsum (map (fun j => gete (Yf_entries branches) l j)
              (seq 0 (length buses)))
    = (branch_Yff e + branch_Yft e)%num.
Proof.
  intros buses branches l e Hidx Hn.
  rewrite (nsum_ext _ _ (fun j => (at_col j (from_i e) (branch_Yff e)
                                   + at_col j (to_i e) (branch_Yft e))%num))
    by (intros j _; now apply Yf_get).
  unfold indexed in Hidx. rewrite Forall_forall in Hidx.
  destruct (Hidx e (nth_error_In _ _ Hn)) as [Hf Ht].
  now rewrite nsum_map_add, !nsum_at_col.
Qed.

Lemma Yt_row_sum : forall buses branches l e,
    indexed buses branches ->
    nth_error branches l = Some e ->
    nsum (map (fun j => gete (Yt_entries branches) l j)
              (seq 0 (length buses)))
    = (branch_Ytf e + branch_Ytt e)%num.
Proof.
  intros buses branches l e Hidx Hn.
  rewrite (nsum_ext _ _ (fun j => (at_col j (from_i e) (branch_Ytf e)
                                   + at_col j (to_i e) (branch_Ytt e))%num))
    by (intros j _; now apply Yt_get).
  unfold indexed in Hidx. rewrite Forall_forall in Hidx.
  destruct (Hidx e (nth_error_In _ _ Hn)) as [Hf Ht].
  now rewrite nsum_map_add, !nsum_at_col.
Qed.

(** Row [i] of [Ybus]: what the branches from [i] and to [i] add over
    all columns, and the shunt of bus [i]. *)
Lemma Ybus_row_sum : forall self buses branches i,
    indexed buses branches ->
    nsum (map (gete (Ybus_entries self buses branches) i)
              (seq 0 (length buses)))
    = (nsum (map (fun le => if (from_i (snd le) =? i)%nat
                            then (branch_Yff (snd le) + branch_Yft (snd le))%num
                            else n0) (enumerate branches))
       + nsum (map (fun le => if (to_i (snd le) =? i)%nat
                              then (branch_Ytf (snd le) + branch_Ytt (snd le))%num
                              else n0) (enumerate branches))
       + match nth_error buses i with
         | Some v => bus_Ysh self v
         | None => n0
         end)%num.
Proof.
  intros self buses branches i Hidx.
  rewrite (nsum_ext _ _ _ _ (fun j _ => Ybus_get self buses branches i j)).
  rewrite !nsum_map_add.
  f_equal; [f_equal|].
  - rewrite nsum_swap.
    apply nsum_ext. intros [l e] Hin. apply in_enumerate in Hin.
    cbn [fst snd]. destruct (from_i e =? i)%nat.
    + now apply Yf_row_sum.
    + apply nsum_zero.
  - rewrite nsum_swap.
    apply nsum_ext. intros [l e] Hin. apply in_enumerate in Hin.
    cbn [fst snd]. destruct (to_i e =? i)%nat.
    + now apply Yt_row_sum.
    + apply nsum_zero.
  - destruct (nth_error buses i) as [v|] eqn:Hn.
    + apply nsum_at_col. apply nth_error_Some. congruence.
    + apply nsum_zero.
Qed.

Lemma branch_Yff_tap1 : forall e,
    branch_tap e = n1 -> branch_Yff e = branch_Ytt e.
Proof.
  intros e Ht. unfold branch_Yff. rewrite Ht, nconj_1, nmul_1_l.
  apply ndiv_1_r.
Qed.

(** C3 (amended).  On a network whose branches end at buses of the bus
    list, with a base power that is not 0, no bus shunt, and branches that
    are plain lines (non-zero impedance, no charging, no tap ratio other
    than 1, no phase shift), every row of [Ybus] sums to zero.  With a
    shunt the row sums need not be zero. *)
Theorem Ybus_rows_sum_to_zero :
  (forall self buses branches,
      Case.base_mva self <> 0 ->
      indexed buses branches ->
      Forall no_shunt buses ->
      Forall plain_line branches ->
      exists Ybus Yf Yt,
        getYbus self (Some buses) (Some branches) = Some (Ybus, Yf, Yt)
        /\ forall i, row_sum Ybus i = n0)
  /\ (exists Ybus Yf Yt,
         getYbus (case_of 100) (Some [bus_g 0 100]) (Some [])
         = Some (Ybus, Yf, Yt)
         /\ row_sum Ybus 0 = n1 /\ row_sum Ybus 0 <> n0).
Proof.
  split.
  - intros self buses branches Hbase Hidx Hsh Hpl.
    eexists _, _, _. split; [apply getYbus_some; exact Hidx|].
    intros i. unfold row_sum, get. cbn [ncols entries].
    rewrite Ybus_row_sum by exact Hidx.
    rewrite Forall_forall in Hpl.
    rewrite (nsum_ext _ _ (fun _ => n0)).
    2:{ intros [l e] Hin. apply in_enumerate, nth_error_In in Hin.
        cbn [snd]. destruct (from_i e =? i)%nat; [|reflexivity].
        now apply plain_line_cancel, Hpl. }
    rewrite nsum_zero.
    rewrite (nsum_ext _ _ (fun _ => n0)).
    2:{ intros [l e] Hin. apply in_enumerate, nth_error_In in Hin.
        cbn [snd]. destruct (to_i e =? i)%nat; [|reflexivity].
        now apply plain_line_cancel, Hpl. }
    rewrite !nsum_zero, !nadd_0_l.
    destruct (nth_error buses i) as [v|] eqn:Hn; [|reflexivity].
    rewrite Forall_forall in Hsh.
    destruct (Hsh v (nth_error_In _ _ Hn)) as [Hg Hs].
    now apply bus_Ysh_zero.
  - eexists _, _, _. split; [apply getYbus_some; constructor|].
    unfold row_sum, get. cbn [ncols entries].
    rewrite Ybus_row_sum by constructor.
    cbn [enumerate length seq combine map nsum fold_right nth_error].
    rewrite !nadd_0_l.
    unfold bus_Ysh, ofR, nj, nmul, nadd, lift2, n1, case_of, bus_g.
    cbn [Bus.g_shunt Bus.b_shunt Case.base_mva].
    rewrite ndiv_fin by (apply RtoC_neq_0; lra).
    assert (Cdiv (Cadd (RtoC 100) (Cmul Ci (RtoC 0))) (RtoC 100) = C1) as ->
        by (apply C_eq; unfold Cdiv, Cnorm2; simpl; field).
    split; [reflexivity|]. intros H. injection H as H. lra.
Qed.

(** C3, the claim as it was stated: two buses without shunt and one line
    with charging susceptance 2 (and [r + jx = j]); row 0 of [Ybus] sums
    to [j]. *)
Lemma Ybus_row_sum_charging :
  Forall no_shunt [bus_n 0; bus_n 1]
  /\ exists Ybus Yf Yt,
      getYbus (case_of 100) (Some [bus_n 0; bus_n 1])
              (Some [line (bus_n 0) (bus_n 1) 0 1 2 0 0])
      = Some (Ybus, Yf, Yt)
      /\ row_sum Ybus 0 = nj
      /\ row_sum Ybus 0 <> n0.
Proof.
  split; [repeat constructor|].
  assert (indexed [bus_n 0; bus_n 1] [line (bus_n 0) (bus_n 1) 0 1 2 0 0])
    as Hidx by (now apply indexed_two).
  set (e := line (bus_n 0) (bus_n 1) 0 1 2 0 0) in *.
  eexists _, _, _. split; [apply getYbus_some; exact Hidx|].
  assert (nsum (map (gete (Ybus_entries (case_of 100) [bus_n 0; bus_n 1] [e])
                          0%nat) (seq 0 2)) = nj) as E.
  { rewrite (Ybus_row_sum _ _ _ _ Hidx).
    cbn [enumerate length seq combine map nsum fold_right nth_error fst snd].
    change (from_i e) with 0%nat. change (to_i e) with 1%nat.
    cbn [Nat.eqb]. rewrite !nadd_0_r.
    rewrite bus_Ysh_zero by (try reflexivity; simpl; lra).
    rewrite nadd_0_r.
    assert (branch_tap e = n1) as Ht
        by (apply branch_tap_unit; [left|]; reflexivity).
    rewrite branch_Yff_tap1, branch_Yft_line by exact Ht.
    unfold branch_Ytt, branch_Bc, branch_Ys, e, line.
    cbn [Branch.online Branch.r Branch.x Branch.b of_bool].
    unfold ofR, nj, nmul, nadd, nneg, lift1, lift2.
    rewrite !ndiv_fin.
    - f_equal. apply C_eq; unfold Cdiv, Cnorm2; simpl; field.
    - apply RtoC_neq_0; lra.
    - intros H. apply (f_equal Im) in H. simpl in H. lra. }
  unfold row_sum, get. cbn [ncols entries length].
  change (nsum (map (gete (Ybus_entries (case_of 100) [bus_n 0; bus_n 1] [e])
                          0%nat) (seq 0 2)) = nj
          /\ nsum (map (gete (Ybus_entries (case_of 100)
                                           [bus_n 0; bus_n 1] [e])
                             0%nat) (seq 0 2)) <> n0).
  rewrite E. split; [reflexivity|].
  intros H. apply (f_equal (fun v => match v with
                                     | Fin z => Im z | NonFinite => 0 end)) in H.
  simpl in H. lra.
Qed.

(* ================================================================== *)
(** ** Branches of zero impedance *)

Lemma nsum_nonfinite : forall l, In NonFinite l -> nsum l = NonFinite.
Proof.
  induction l as [|a l IH]; simpl; intros H; [contradiction|].
  destruct H as [-> | H]; [reflexivity|].
  rewrite IH by exact H. apply nadd_nonfinite_r.
Qed.

Lemma branch_Ys_zero_impedance : forall e,
    Branch.r e = 0 -> Branch.x e = 0 -> branch_Ys e = NonFinite.
Proof.
  intros e Hr Hx. unfold branch_Ys. rewrite Hr, Hx.
  assert ((ofR 0 + nj * ofR 0)%num = n0) as ->.
  { unfold ofR, nj, nmul, nadd, lift2, n0. f_equal.
    apply C_eq; simpl; ring. }
  apply ndiv_zero.
Qed.

Lemma zero_impedance_elements : forall e,
    Branch.r e = 0 -> Branch.x e = 0 ->
    branch_Yff e = NonFinite /\ branch_Yft e = NonFinite
    /\ branch_Ytf e = NonFinite /\ branch_Ytt e = NonFinite.
Proof.
  intros e Hr Hx.
  unfold branch_Yff, branch_Yft, branch_Ytf, branch_Ytt.
  rewrite branch_Ys_zero_impedance by assumption.
  repeat split; reflexivity.
Qed.

(** C4.  [getYbus] has no guard: with a branch of zero series impedance
    it raises nothing and returns matrices with entries that are not
    finite, in [Yf], [Yt] and on the diagonal of [Ybus]. *)
Theorem getYbus_zero_impedance : forall self buses branches l e,
    indexed buses branches ->
    nth_error branches l = Some e ->
    Branch.r e = 0 -> Branch.x e = 0 ->
    exists Ybus Yf Yt,
      getYbus self (Some buses) (Some branches) = Some (Ybus, Yf, Yt)
      /\ get Yf l (from_i e) = NonFinite
      /\ get Yt l (to_i e) = NonFinite
      /\ get Ybus (from_i e) (from_i e) = NonFinite
      /\ get Ybus (to_i e) (to_i e) = NonFinite.
Proof.
  intros self buses branches l e Hidx Hn Hr Hx.
  destruct (zero_impedance_elements e Hr Hx) as (Eff & Eft & Etf & Ett).
  assert (gete (Yf_entries branches) l (from_i e) = NonFinite) as HYf.
  { rewrite (Yf_get _ _ _ _ Hn), Eff, Eft. unfold at_col.
    now rewrite Nat.eqb_refl. }
  assert (gete (Yt_entries branches) l (to_i e) = NonFinite) as HYt.
  { rewrite (Yt_get _ _ _ _ Hn), Etf, Ett. unfold at_col.
    rewrite Nat.eqb_refl. apply nadd_nonfinite_r. }
  eexists _, _, _. split; [apply getYbus_some; exact Hidx|].
  unfold get; cbn [entries].
  split; [exact HYf|]. split; [exact HYt|].
  apply in_enumerate in Hn.
  split; rewrite Ybus_get.
  - rewrite (nsum_nonfinite (map _ (enumerate branches))); [reflexivity|].
    apply in_map_iff. exists (l, e). split; [|exact Hn].
    cbn [fst snd]. now rewrite Nat.eqb_refl.
  - rewrite (nsum_nonfinite
               (map (fun le => if (to_i (snd le) =? to_i e)%nat
                               then gete (Yt_entries branches) (fst le)
                                         (to_i e)
                               else n0) (enumerate branches))).
    + now rewrite nadd_nonfinite_r.
    + apply in_map_iff. exists (l, e). split; [|exact Hn].
      cbn [fst snd]. now rewrite Nat.eqb_refl.
Qed.

(** The other builder, [make_admittance_matrix], catches the division:
    a branch of zero impedance gets the admittance [1e10]. *)
Lemma branch_y_clamped : forall br,
    Y.r br = 0 -> Y.x br = 0 -> Y.branch_y br = RtoC 1e10.
Proof.
  intros br Hr Hx. unfold Y.branch_y, py_cdiv. rewrite Hr, Hx.
  destruct (Ceq_dec (mkC 0 0) C0) as [_|N]; [reflexivity|].
  exfalso; apply N; reflexivity.
Qed.

Lemma branch_y_regular : forall br,
    Y.r br <> 0 \/ Y.x br <> 0 ->
    Y.branch_y br = Cdiv C1 (mkC (Y.r br) (Y.x br)).
Proof.
  intros br H. unfold Y.branch_y, py_cdiv.
  destruct (Ceq_dec (mkC (Y.r br) (Y.x br)) C0) as [E|_]; [|reflexivity].
  injection E as E1 E2. destruct H; contradiction.
Qed.

Lemma make_admittance_matrix_zero_impedance :
  exists M,
    Y.make_admittance_matrix
      (Y.mk_network [0%nat; 1%nat] 2 [Y.mk_branch 0 1 0 0 0]) = Some M
    /\ get M 0 0 = ofR 1e10 /\ get M 1 1 = ofR 1e10
    /\ get M 0 1 = ofR (- 1e10) /\ get M 1 0 = ofR (- 1e10).
Proof.
  unfold Y.make_admittance_matrix.
  cbn -[Y.branch_y Cdiv Cadd Cneg].
  eexists. split; [reflexivity|].
  unfold get, gete.
  cbn -[Y.branch_y Cdiv Cadd Cneg nadd].
  rewrite !(branch_y_clamped (Y.mk_branch 0 1 0 0 0) eq_refl eq_refl).
  unfold ofR, nadd, lift2, n0.
  repeat split; f_equal; apply C_eq; unfold Cdiv, Cnorm2; simpl; field.
Qed.

(* ================================================================== *)
(** ** [makeB] *)

(** Entries under a map that respects sums. *)
Lemma gete_map_additive : forall (f : num -> num) es i j,
    f n0 = n0 ->
    (forall a b, f (a + b)%num = (f a + f b)%num) ->
    gete (map (fun e => (erow e, ecol e, f (eval e))) es) i j
    = f (gete es i j).
Proof.
  intros f es i j H0 Hadd.
  induction es as [|e es IH]; simpl.
  - unfold gete. simpl. now rewrite H0.
  - rewrite (gete_cons e es), gete_cons, IH, Hadd.
    change (erow (erow e, ecol e, f (eval e))) with (erow e).
    change (ecol (erow e, ecol e, f (eval e))) with (ecol e).
    change (eval (erow e, ecol e, f (eval e))) with (f (eval e)).
    destruct ((erow e =? i)%nat && (ecol e =? j)%nat); [reflexivity|].
    now rewrite H0.
Qed.

Lemma neg_imag_additive :
  (fun v => (- nim v)%num) n0 = n0
  /\ forall a b, (- nim (a + b))%num = (- nim a + - nim b)%num.
Proof.
  split.
  - unfold nneg, nim, n0, lift1. f_equal. apply C_eq; simpl; ring.
  - intros [a|] [b|]; unfold nneg, nim, nadd, lift1, lift2; try reflexivity.
    f_equal. apply C_eq; simpl; ring.
Qed.

Lemma get_neg_imag : forall M i j,
    get (sp_neg (sp_imag M)) i j = (- nim (get M i j))%num.
Proof.
  intros M i j. unfold get, sp_neg, sp_imag, sp_map. cbn [entries].
  rewrite map_map. unfold erow at 1, ecol at 1, eval at 1. cbn [fst snd].
  destruct neg_imag_additive as [H0 Hadd].
  exact (gete_map_additive (fun v => (- nim v)%num) _ i j H0 Hadd).
Qed.

Lemma makeB_loops : forall method buses branches,
    map (fun bus => Bus.set_b_shunt bus 0) buses = map Bp_bus buses
    /\ map (fun branch =>
              let branch := Branch.set_b branch 0 in
              let branch := Branch.set_ratio branch 1 in
              if String.eqb method "XB" then Branch.set_r branch 0
              else branch) branches
       = map (Bp_branch method) branches
    /\ map (fun branch =>
              let branch := Branch.set_phase_shift branch 0 in
              if String.eqb method "BX" then Branch.set_r branch 0
              else branch) branches
       = map (Bpp_branch method) branches.
Proof.
  intros method buses branches. split; [|split]; apply map_ext; intros a.
  - reflexivity.
  - unfold Bp_branch. cbv zeta.
    destruct (String.eqb method "XB"); reflexivity.
  - unfold Bpp_branch. cbv zeta.
    destruct (String.eqb method "BX"); reflexivity.
Qed.

Lemma indexed_map : forall buses branches (f : Bus.t -> Bus.t)
                           (g : Branch.t Bus.t -> Branch.t Bus.t),
    (forall e, from_i (g e) = from_i e /\ to_i (g e) = to_i e) ->
    indexed buses branches ->
    indexed (map f buses) (map g branches).
Proof.
  intros buses branches f g Hg H. unfold indexed in *.
  rewrite length_map. apply Forall_map.
  eapply Forall_impl; [|exact H]. intros e [H1 H2].
  destruct (Hg e) as [-> ->]. now split.
Qed.

(** C7.  On a network whose branches end at buses of the bus list,
    [makeB] returns [(Bp, Bpp)]: [Bp] is the negative imaginary part
    of the admittance matrix of the B' data (bus shunt susceptance, branch
    charging zeroed, tap ratio 1, resistance zeroed for "XB"), [Bpp] that
    of the B'' data (bus shunt susceptance and phase shift zeroed,
    resistance zeroed for "BX"). *)
Theorem makeB_negative_imaginary : forall self buses branches method,
    method = "XB"%string \/ method = "BX"%string ->
    indexed buses branches ->
    exists Bp Bpp Yp Yfp Ytp Ypp Yfpp Ytpp,
      makeB self (Some buses) (Some branches) method = Some (Bp, Bpp)
      /\ getYbus self (Some (map Bp_bus buses))
                 (Some (map (Bp_branch method) branches))
         = Some (Yp, Yfp, Ytp)
      /\ getYbus self (Some (map Bp_bus buses))
                 (Some (map (Bpp_branch method) branches))
         = Some (Ypp, Yfpp, Ytpp)
      /\ nrows Bp = nrows Yp /\ ncols Bp = ncols Yp
      /\ nrows Bpp = nrows Ypp /\ ncols Bpp = ncols Ypp
      /\ forall i j,
          get Bp i j = (- nim (get Yp i j))%num
          /\ get Bpp i j = (- nim (get Ypp i j))%num.
Proof.
  intros self buses branches method _ Hidx.
  assert (indexed (map Bp_bus buses) (map (Bp_branch method) branches))
    as Hp by (apply indexed_map; [intros; split; reflexivity|exact Hidx]).
  assert (indexed (map Bp_bus buses) (map (Bpp_branch method) branches))
    as Hpp by (apply indexed_map; [intros; split; reflexivity|exact Hidx]).
  destruct (makeB_loops method buses branches) as (L1 & L2 & L3).
  unfold makeB, deepcopy. lazy beta iota zeta.
  lazy beta iota zeta in L2, L3.
  rewrite L1, L2, L3.
  rewrite (getYbus_some _ _ _ Hp), (getYbus_some _ _ _ Hpp).
  lazy beta iota zeta. cbn [fst].
  eexists _, _, _, _, _, _, _, _.
  split; [reflexivity|]. split; [reflexivity|]. split; [reflexivity|].
  cbn [nrows ncols sp_neg sp_imag sp_map].
  repeat (split; [reflexivity|]).
  intros i j. split; apply get_neg_imag.
Qed.

(* ================================================================== *)
(** ** [makeBdc] *)













(** C8.  Two buses and the branch [Branch(b0, b1)] as [Branch.__init__]
    leaves it: no phase shift and a reactance of 0.  [makeBdc] divides by
    the reactance without a check; it returns, the susceptance of the
    branch is [1/0], and [Pfinj] and [Pbusinj] hold values that are not
    numbers where the claim asks for the zero vector. *)
Lemma makeBdc_zero_reactance :
  Branch.phase_shift (Branch.init (bus_n 0) (bus_n 1)) = 0
  /\ exists Bbus Bf,
      makeBdc (case_of 100) (Some [bus_n 0; bus_n 1])
              (Some [Branch.init (bus_n 0) (bus_n 1)])
      = Some (Bbus, Bf, [NonFinite; NonFinite], [NonFinite])
      /\ [NonFinite; NonFinite] <> repeat n0 2.
Proof.
  split; [reflexivity|].
  unfold makeBdc. lazy beta iota zeta.
  cbn -[ndiv Rneb nmul nneg deg2rad ofR of_bool].
  rewrite Rneb_refl.
  change (ofR 0) with n0. rewrite ndiv_zero.
  unfold ndiv, nmul, nneg, nadd, lift1, lift2, a_mul, a_neg.
  cbn -[deg2rad Cmul Cneg Cadd].
  unfold nadd, nmul, lift2. cbn -[deg2rad Cmul Cneg Cadd].
  eexists _, _. split; [reflexivity|]. discriminate.
Qed.

(* ================================================================== *)
(** ** Second derivatives *)

Lemma csr_diag_some : forall data nb,
    length data = nb ->
    csr_diag data nb
    = Some (mkSM nb nb (combine (combine (seq 0 nb) (seq 0 nb)) data)).
Proof.
  intros data nb H. unfold csr_diag.
  apply csc_matrix_some; rewrite ?length_seq; auto using Forall_seq_lt.
Qed.

Lemma sp_mul_some : forall A B,
    ncols A = nrows B ->
    sp_mul A B
    = Some (mkSM (nrows A) (ncols B) (mul_entries (entries A) (entries B))).
Proof. intros A B H. unfold sp_mul. now rewrite H, Nat.eqb_refl. Qed.

Lemma sp_add_some : forall A B,
    nrows A = nrows B -> ncols A = ncols B ->
    sp_add A B = Some (mkSM (nrows A) (ncols A) (entries A ++ entries B)).
Proof.
  intros A B H1 H2. unfold sp_add. now rewrite H1, H2, !Nat.eqb_refl.
Qed.

Lemma sp_sub_some : forall A B,
    nrows A = nrows B -> ncols A = ncols B ->
    sp_sub A B
    = Some (mkSM (nrows A) (ncols A) (entries A ++ entries (sp_neg B))).
Proof. intros A B H1 H2. unfold sp_sub. now apply sp_add_some. Qed.

Lemma sp_matvec_some : forall A v,
    ncols A = length v ->
    sp_matvec A v
    = Some (map (fun i =>
                   nsum (map (fun e => nmul (eval e) (nth (ecol e) v n0))
                             (filter (fun e => (erow e =? i)%nat)
                                     (entries A))))
                (seq 0 (nrows A))).
Proof. intros A v H. unfold sp_matvec. now rewrite H, Nat.eqb_refl. Qed.

Lemma broadcast2_same : forall f a b,
    length a = length b -> broadcast2 f a b = Some (zipWith f a b).
Proof. intros f a b H. unfold broadcast2. now rewrite H, Nat.eqb_refl. Qed.

Lemma get_sp_T : forall M i j, get (sp_T M) i j = get M j i.
Proof.
  intros M i j. unfold get, sp_T. cbn [entries].
  induction (entries M) as [|e es IH]; [reflexivity|].
  cbn [map]. rewrite (gete_cons e es), gete_cons, IH.
  change (erow (ecol e, erow e, eval e)) with (ecol e).
  change (ecol (ecol e, erow e, eval e)) with (erow e).
  change (eval (ecol e, erow e, eval e)) with (eval e).
  now rewrite andb_comm.
Qed.

Lemma csr_diag_ok : forall data nb,
    length data = nb ->
    exists M, csr_diag data nb = Some M /\ nrows M = nb /\ ncols M = nb.
Proof. intros. rewrite csr_diag_some by assumption. eauto. Qed.

Lemma sp_mul_ok : forall A B,
    ncols A = nrows B ->
    exists M, sp_mul A B = Some M /\ nrows M = nrows A /\ ncols M = ncols B.
Proof. intros. rewrite sp_mul_some by assumption. eauto. Qed.

Lemma sp_add_ok : forall A B,
    nrows A = nrows B -> ncols A = ncols B ->
    exists M, sp_add A B = Some M /\ nrows M = nrows A /\ ncols M = ncols A.
Proof. intros. rewrite sp_add_some by assumption. eauto. Qed.

Lemma sp_sub_ok : forall A B,
    nrows A = nrows B -> ncols A = ncols B ->
    exists M, sp_sub A B = Some M /\ nrows M = nrows A /\ ncols M = ncols A.
Proof. intros. rewrite sp_sub_some by assumption. eauto. Qed.

Lemma sp_matvec_ok : forall A v,
    ncols A = length v ->
    exists r, sp_matvec A v = Some r /\ length r = nrows A.
Proof.
  intros. rewrite sp_matvec_some by assumption. eexists. split; eauto.
  now rewrite length_map, length_seq.
Qed.

Lemma broadcast2_ok : forall f a b,
    length a = length b ->
    exists r, broadcast2 f a b = Some r /\ length r = length b.
Proof.
  intros. rewrite broadcast2_same by assumption. eexists. split; eauto.
  rewrite zipWith_length; assumption.
Qed.

(** Shapes and lengths met while a function runs. *)
Ltac norm_in H :=
  cbn [nrows ncols entries sp_conj sp_H sp_T sp_map sp_scale sp_neg] in H;
  unfold a_conj, a_div, a_abs, a_neg, a_muls, ones in H;
  rewrite ?length_map, ?length_seq, ?repeat_length in H.

Ltac shapes :=
  cbn [nrows ncols entries sp_conj sp_H sp_T sp_map sp_scale sp_neg];
  unfold a_conj, a_div, a_abs, a_neg, a_muls, ones;
  rewrite ?length_map, ?length_seq, ?repeat_length;
  rewrite ?zipWith_length
    by (rewrite ?length_map, ?length_seq, ?repeat_length; congruence);
  rewrite ?length_map, ?length_seq, ?repeat_length;
  congruence.

(** A step of a function that may raise: it succeeds with [x] such that
    [P x], and the rest of the function succeeds on every such [x]. *)
Lemma bind_ok : forall (A B : Type) (a : option A) (k : A -> option B)
                       (P : A -> Prop) (Q : B -> Prop),
    (exists x, a = Some x /\ P x) ->
    (forall x, P x -> exists r, k x = Some r /\ Q r) ->
    exists r, match a with Some x => k x | None => None end = Some r /\ Q r.
Proof.
  intros A B a k P Q (x & -> & HP) Hk. exact (Hk x HP).
Qed.

(** Run the next operation of a function whose operands have the shapes
    it asks for. *)
Ltac run_step :=
  eapply bind_ok;
  [ first [ apply sp_matvec_ok; shapes
          | apply csr_diag_ok; shapes
          | apply broadcast2_ok; shapes
          | apply sp_mul_ok; shapes
          | apply sp_sub_ok; shapes
          | apply sp_add_ok; shapes ]
  | let x := fresh "x" in
    let H := fresh "H" in
    intros x H; cbv beta in H;
    repeat match type of H with
           | _ /\ _ => let H' := fresh "H" in
                       destruct H as [H' H]; norm_in H'
           end;
    norm_in H ].

(** The blocks [Gav] and [Gva] of a result of [d2Sbus_dV2]. *)
Lemma d2Sbus_dV2_ok : forall self Ybus V lam,
    nrows Ybus = length V -> ncols Ybus = length V ->
    length lam = length V ->
    exists R,
      d2Sbus_dV2 self Ybus V lam = Some R
      /\ snd (fst (fst R)) = sp_T (snd (fst R)).
Proof.
  intros self Ybus V lam Hr Hc Hl.
  unfold d2Sbus_dV2. lazy beta iota zeta.
  rewrite length_map.
  repeat run_step.
  eexists. split; reflexivity.
Qed.

(** C9.  For an admittance matrix [Ybus], a voltage vector [V] without
    zero entry and multipliers [lam], all of one size, [d2Sbus_dV2]
    returns four blocks, and the angle-magnitude block is the transpose of
    the magnitude-angle block. *)
Theorem d2Sbus_dV2_transpose : forall self Ybus V lam,
    nrows Ybus = length V -> ncols Ybus = length V ->
    length lam = length V ->
    Forall (fun v => v <> C0) V ->
    exists Gaa Gav Gva Gvv,
      d2Sbus_dV2 self Ybus V lam = Some (Gaa, Gav, Gva, Gvv)
      /\ nrows Gav = ncols Gva /\ ncols Gav = nrows Gva
      /\ forall i j, get Gav i j = get Gva j i.
Proof.
  intros self Ybus V lam Hr Hc Hl _.
  destruct (d2Sbus_dV2_ok self Ybus V lam Hr Hc Hl)
    as ([[[Gaa Gav] Gva] Gvv] & E & HT).
  cbn [fst snd] in HT. subst Gav.
  exists Gaa, (sp_T Gva), Gva, Gvv. split; [exact E|].
  split; [reflexivity|]. split; [reflexivity|].
  intros i j. apply get_sp_T.
Qed.

(** Row [k] of [es], moved to row [i'] and multiplied by [v]. *)
Lemma gete_mul_row_scaled : forall es i' k v i j,
    gete (map (fun b => (i', ecol b, (v * eval b)%num))
              (filter (fun b => (erow b =? k)%nat) es)) i j
    = if (i' =? i)%nat
      then gete (map (fun b => (erow b, ecol b, (v * eval b)%num)) es) k j
      else n0.
Proof.
  induction es as [|e es IH]; intros i' k v i j; simpl.
  - now destruct (i' =? i)%nat.
  - rewrite (gete_cons _ (map _ es)).
    change (erow (erow e, ecol e, (v * eval e)%num)) with (erow e).
    change (ecol (erow e, ecol e, (v * eval e)%num)) with (ecol e).
    change (eval (erow e, ecol e, (v * eval e)%num)) with (v * eval e)%num.
    destruct (erow e =? k)%nat eqn:Ek; simpl.
    + rewrite gete_cons, IH.
      change (erow (i', ecol e, (v * eval e)%num)) with i'.
      change (ecol (i', ecol e, (v * eval e)%num)) with (ecol e).
      change (eval (i', ecol e, (v * eval e)%num)) with (v * eval e)%num.
      destruct (i' =? i)%nat; simpl; [reflexivity|apply nadd_0_l].
    + rewrite IH. destruct (i' =? i)%nat; [|reflexivity].
      now rewrite nadd_0_l.
Qed.

Lemma gete_mul_entries :
  forall (A : Type) (row col : A -> nat) (val : A -> num)
         (L : list A) es i j,
    gete (mul_entries (map (fun a => (row a, col a, val a)) L) es) i j
    = nsum (map (fun a =>
                   if (row a =? i)%nat
                   then gete (map (fun b => (erow b, ecol b,
                                             (val a * eval b)%num)) es)
                             (col a) j
                   else n0) L).
Proof.
  induction L as [|a L IH]; intros es i j; simpl; [reflexivity|].
  unfold mul_entries in *. simpl. rewrite gete_app, IH.
  change (erow (row a, col a, val a)) with (row a).
  change (ecol (row a, col a, val a)) with (col a).
  change (eval (row a, col a, val a)) with (val a).
  now rewrite gete_mul_row_scaled.
Qed.

(** A sum over [enumerate l] in which only position [i] counts. *)
Lemma nsum_single_seq :
  forall (A : Type) (F : nat -> A -> num) (l : list A) s i,
    nsum (map (fun ke => if (fst ke =? i)%nat then F (fst ke) (snd ke)
                         else n0)
              (combine (seq s (length l)) l))
    = if (s <=? i)%nat
      then match nth_error l (i - s) with
           | Some x => F i x
           | None => n0
           end
      else n0.
Proof.
  induction l as [|a l IH]; intros s i; simpl.
  - destruct (s <=? i)%nat; [|reflexivity]. now destruct (i - s)%nat.
  - rewrite IH. cbn [fst snd].
    destruct (Nat.eq_dec s i) as [->|Hne].
    + rewrite Nat.eqb_refl, Nat.leb_refl, Nat.sub_diag.
      replace (S i <=? i)%nat with false
        by (symmetry; apply Nat.leb_gt; lia).
      apply nadd_0_r.
    + replace (s =? i)%nat with false
        by (symmetry; apply Nat.eqb_neq; exact Hne).
      rewrite nadd_0_l.
      destruct (s <=? i)%nat eqn:E.
      * apply Nat.leb_le in E.
        replace (S s <=? i)%nat with true
          by (symmetry; apply Nat.leb_le; lia).
        replace (i - s)%nat with (S (i - S s)) by lia. reflexivity.
      * apply Nat.leb_gt in E.
        replace (S s <=? i)%nat with false
          by (symmetry; apply Nat.leb_gt; lia).
        reflexivity.
Qed.

Lemma nsum_single :
  forall (A : Type) (F : nat -> A -> num) (l : list A) i,
    nsum (map (fun ke => if (fst ke =? i)%nat then F (fst ke) (snd ke)
                         else n0) (enumerate l))
    = match nth_error l i with Some x => F i x | None => n0 end.
Proof.
  intros. unfold enumerate. rewrite nsum_single_seq. simpl.
  now rewrite Nat.sub_0_r.
Qed.

Lemma diag_entries : forall (h : array),
    combine (combine (seq 0 (length h)) (seq 0 (length h))) h
    = map (fun ke => (fst ke, fst ke, snd ke)) (enumerate h).
Proof.
  intros h. rewrite <- (map_id h) at 3.
  now rewrite (combine3_diag _ (fun v => v)).
Qed.

Lemma gete_diag : forall (h : array) i j,
    gete (map (fun ke => (fst ke, fst ke, snd ke)) (enumerate h)) i j
    = match nth_error h i with Some v => at_col j i v | None => n0 end.
Proof.
  intros. exact (gete_enumerate _ (fun ke => fst ke) (fun ke => snd ke) h i j).
Qed.

(** The product of two diagonal matrices, the first scaled by [c]. *)
Lemma gete_scaled_diag_mul : forall (c : num) (h g : array) i j,
    gete (mul_entries
            (map (fun e => (erow e, ecol e, (c * eval e)%num))
                 (map (fun ke => (fst ke, fst ke, snd ke)) (enumerate h)))
            (map (fun ke => (fst ke, fst ke, snd ke)) (enumerate g))) i j
    = match nth_error h i, nth_error g i with
      | Some x, Some y => at_col j i (c * x * y)%num
      | _, _ => n0
      end.
Proof.
  intros c h g i j. rewrite map_map.
  rewrite (gete_mul_entries _ (fun ke => fst ke) (fun ke => fst ke)
                            (fun ke => (c * snd ke)%num)).
  rewrite (nsum_ext _ _
             (fun ke => if (fst ke =? i)%nat
                        then (fun k x => match nth_error g k with
                                         | Some y => at_col j k (c * x * y)%num
                                         | None => n0
                                         end) (fst ke) (snd ke)
                        else n0)).
  - pose proof (nsum_single _ (fun k x => match nth_error g k with
                                          | Some y => at_col j k (c * x * y)%num
                                          | None => n0
                                          end) h i) as HS.
    cbv beta in HS. rewrite HS. now destruct (nth_error h i).
  - intros [k x] _. cbn [fst snd].
    destruct (k =? i)%nat; [|reflexivity].
    rewrite map_map.
    exact (gete_enumerate _ (fun kg => fst kg)
                          (fun kg => (c * x * snd kg)%num) g k j).
Qed.

Lemma csr_diag_enumerate : forall data nb,
    length data = nb ->
    csr_diag data nb
    = Some (mkSM nb nb
                 (map (fun ke => (fst ke, fst ke, snd ke)) (enumerate data))).
Proof.
  intros data nb H. rewrite csr_diag_some by exact H. subst nb.
  now rewrite diag_entries.
Qed.

(** C10.  For a branch admittance matrix [Ybr] (branches by buses), a
    voltage vector [V] without zero entry and one multiplier per branch,
    [d2Ibr_dV2] returns four blocks: the magnitude-magnitude block is the
    zero matrix, the angle-magnitude and magnitude-angle blocks are equal,
    and they are diagonal with entry [-j Haa[i,i] / |V[i]|]. *)
Theorem d2Ibr_dV2_blocks : forall self Ybr V lam,
    ncols Ybr = length V -> nrows Ybr = length lam ->
    Forall (fun v => v <> C0) V ->
    exists Haa Hav Hva Hvv,
      d2Ibr_dV2 self Ybr V lam = Some (Haa, Hav, Hva, Hvv)
      /\ nrows Hvv = length V /\ ncols Hvv = length V
      /\ (forall i j, get Hvv i j = n0)
      /\ Hav = Hva
      /\ (forall i j,
             get Hva i j
             = if (i =? j)%nat && (i <? length V)%nat
               then (- nj * get Haa i i * (n1 / nabs (Fin (nth i V C0))))%num
               else n0).
Proof.
  intros self Ybr V lam Hc Hr _.
  unfold d2Ibr_dV2. lazy beta iota zeta. rewrite length_map.
  assert (a_div (ones (length V)) (a_abs (map Fin V))
          = map (fun v => (n1 / nabs (Fin v))%num) V) as ->.
  { unfold a_div, a_abs. now rewrite ones_map, map_map, zipWith_map. }
  rewrite csr_diag_enumerate by (now rewrite length_map).
  rewrite sp_matvec_some by shapes.
  set (Ybrlam := map _ (seq 0 (nrows (sp_T Ybr)))).
  assert (length Ybrlam = length V) as HY.
  { unfold Ybrlam. rewrite length_map, length_seq. exact Hc. }
  rewrite broadcast2_same by (unfold a_neg; now rewrite !length_map).
  set (h := zipWith ndiv (a_neg Ybrlam) (map Fin V)).
  assert (length h = length V) as Hh.
  { unfold h, a_neg. rewrite zipWith_length; now rewrite !length_map. }
  rewrite (csr_diag_enumerate h) by exact Hh.
  rewrite sp_mul_some by reflexivity.
  eexists _, _, _, _. split; [reflexivity|].
  cbn [nrows ncols sp_zeros]. do 2 (split; [reflexivity|]).
  split; [reflexivity|]. split; [reflexivity|].
  intros i j. unfold get. cbn [entries sp_scale sp_map].
  rewrite gete_scaled_diag_mul, gete_diag, nth_error_map.
  destruct (nth_error h i) as [x|] eqn:Ex.
  - assert (i < length V)%nat as Hi
        by (rewrite <- Hh; apply nth_error_Some; congruence).
    destruct (nth_error V i) as [v|] eqn:Ev;
      [|apply nth_error_None in Ev; lia].
    cbn [option_map]. rewrite (nth_error_nth _ _ C0 Ev).
    unfold at_col. rewrite Nat.eqb_refl, (Nat.eqb_sym j i).
    replace (i <? length V)%nat with true
      by (symmetry; now apply Nat.ltb_lt).
    now rewrite andb_true_r.
  - apply nth_error_None in Ex. rewrite Hh in Ex.
    replace (i <? length V)%nat with false
      by (symmetry; now apply Nat.ltb_ge).
    now rewrite andb_false_r.
Qed.

(* ================================================================== *)
(** ** [reset] *)

Lemma Forall2_map_r : forall (A B : Type) (P : A -> B -> Prop)
                             (f : A -> B) (l : list A),
    (forall a, P a (f a)) -> Forall2 P l (map f l).
Proof.
  induction l as [|a l IH]; intros H; simpl; constructor; auto.
Qed.

(** C5 (amended).  After [reset], whatever the state before: the lambdas
    and voltage-limit multipliers of every bus are zero, the end flows and
    the multipliers of every branch are zero; the voltage magnitude and
    angle of a bus are what they were, and so are the lists, the base
    power and every other field of a bus or a branch.  Generators are
    reset by [Generator.reset]. *)
Theorem reset_clears_results :
  forall (Generator_reset : Generator.t nat -> Generator.t nat) self,
    Case.name (reset Generator_reset self) = Case.name self
    /\ Case.base_mva (reset Generator_reset self) = Case.base_mva self
    /\ Forall2 (fun b b' => bus_kept b b' /\ bus_cleared b')
               (Case.buses self) (Case.buses (reset Generator_reset self))
    /\ Forall2 (fun l l' => branch_kept l l' /\ branch_cleared l')
               (Case.branches self)
               (Case.branches (reset Generator_reset self))
    /\ Case.generators (reset Generator_reset self)
       = map Generator_reset (Case.generators self).
Proof.
  intros Generator_reset self. unfold reset. cbn [Case.name Case.base_mva
    Case.buses Case.branches Case.generators].
  split; [reflexivity|]. split; [reflexivity|].
  split; [|split; [|reflexivity]].
  - apply Forall2_map_r. intros b.
    unfold bus_kept, bus_cleared. simpl. repeat split; reflexivity.
  - apply Forall2_map_r. intros l.
    unfold branch_kept, branch_cleared. simpl. repeat split; reflexivity.
Qed.

Lemma Cabs_2j : Cabs (mkC 0 2) = 2.
Proof.
  unfold Cabs, Cnorm2. simpl.
  replace (0 * 0 + 2 * 2) with (2 * 2) by ring.
  apply sqrt_square. lra.
Qed.

Lemma Cangle_2j : Cangle (mkC 0 2) * 180 / PI = 90.
Proof.
  unfold Cangle. simpl.
  destruct (Rlt_dec 0 0) as [H|_]; [lra|].
  destruct (Rlt_dec 0 2) as [_|H]; [|lra].
  field. apply PI_neq0.
Qed.

(** C5, the claim as it was stated: one bus, solved at [V = 2j]; after
    [pf_solution] and then [reset] its voltage magnitude is 2 and its
    angle 90 degrees, not zero. *)
Lemma reset_keeps_voltage :
  exists c',
    pf_solution keep_generator case_one_bus
                (mkSM 1 1 []) (mkSM 0 1 []) (mkSM 0 1 []) [mkC 0 2]
    = Some c'
    /\ map Bus.v_magnitude (Case.buses (reset keep_generator c')) = [2]
    /\ map Bus.v_angle (Case.buses (reset keep_generator c')) = [90]
    /\ 2 <> 0 /\ 90 <> 0.
Proof.
  unfold pf_solution.
  cbn -[Cangle Cabs Rmult Rdiv PI].
  eexists. split; [reflexivity|].
  cbn -[Cangle Cabs Rmult Rdiv PI].
  rewrite Cabs_2j, Cangle_2j. repeat split; lra.
Qed.

(* ================================================================== *)
(** ** [pf_solution] *)

Lemma injected_diag :
  injected Y_diag [C1; C1] = Some [Fin (mkC 1 (-1)); Fin (mkC 2 (-3))].
Proof.
  unfold injected, Y_diag, sp_matvec, broadcast2.
  cbn -[nmul nadd nconj]. unfold nmul, nadd, nconj, lift1, lift2, n0.
  do 3 f_equal; [|f_equal]; apply C_eq; simpl; ring.
Qed.

(** C6.  Two buses, the second the reference bus with the only
    generator, [Ybus = diag (1 + j, 2 + 3j)], [V = (1, 1)], so
    [S = (1 - j, 2 - 3j)].  [pf_solution] gives the generator the
    reactive power of its bus ([S[1]], -300 MVAr), and for the active
    power reads [S] at the position of the generator among the online
    generators ([S[0]], 100 MW) where the bus of the generator has index 1
    (200 MW). *)
Theorem pf_solution_reference_dispatch :
  exists c' g b s0 s1,
    pf_solution keep_generator case_ref_second Y_diag
                (mkSM 0 2 []) (mkSM 0 2 []) [C1; C1] = Some c'
    /\ injected Y_diag [C1; C1] = Some [s0; s1]
    /\ Case.generators c' = [g]
    /\ deref c' (Generator.bus g) = Some b
    /\ Bus.type b = REFERENCE /\ Bus._i b = 1%nat
    /\ Generator.q g = radd (rmul (nimag s1) (Fin (Case.base_mva c')))
                            (Fin (Bus.q_demand b))
    /\ Generator.q g = Fin (-300)
    /\ Generator.p g = radd (rmul (nreal s0) (Fin (Case.base_mva c')))
                            (Fin (Bus.p_demand b))
    /\ Generator.p g = Fin 100
    /\ radd (rmul (nreal s1) (Fin (Case.base_mva c')))
            (Fin (Bus.p_demand b)) = Fin 200.
Proof.
  assert ((Fin C1 * nconj (Fin (mkC 1 1) * Fin C1 + n0))%num
          = Fin (mkC 1 (-1))) as E0.
  { unfold nmul, nadd, nconj, lift1, lift2, n0.
    f_equal; apply C_eq; simpl; ring. }
  assert ((Fin C1 * nconj (Fin (mkC 2 3) * Fin C1 + n0))%num
          = Fin (mkC 2 (-3))) as E1.
  { unfold nmul, nadd, nconj, lift1, lift2, n0.
    f_equal; apply C_eq; simpl; ring. }
  eexists _, _, _, (Fin (mkC 1 (-1))), (Fin (mkC 2 (-3))).
  split.
  { unfold pf_solution.
    cbn -[Cangle Cabs Rmult Rdiv Rplus Rminus Ropp PI nmul nadd nconj].
    rewrite E0, E1. reflexivity. }
  split; [exact injected_diag|].
  cbn -[Cangle Cabs Rmult Rdiv Rplus Rminus Ropp PI].
  split; [reflexivity|]. split; [reflexivity|].
  split; [reflexivity|]. split; [reflexivity|].
  split; [reflexivity|]. split; [simpl; f_equal; lra|].
  split; [reflexivity|].
  split; simpl; f_equal; lra.
Qed.

(* ================================================================== *)
(** ** The theorems at concrete networks *)

Lemma getYbus_formulas_witness :
  indexed [bus_n 0; bus_n 1] [line (bus_n 0) (bus_n 1) 1 2 0 0 0]
  /\ exists Ybus Yf Yt,
      getYbus (case_of 100) (Some [bus_n 0; bus_n 1])
              (Some [line (bus_n 0) (bus_n 1) 1 2 0 0 0])
      = Some (Ybus, Yf, Yt)
      /\ nrows Ybus = 2%nat /\ ncols Ybus = 2%nat
      /\ nrows Yf = 1%nat /\ ncols Yf = 2%nat.
Proof.
  assert (indexed [bus_n 0; bus_n 1] [line (bus_n 0) (bus_n 1) 1 2 0 0 0])
    as H by (apply indexed_two; reflexivity).
  split; [exact H|].
  destruct (getYbus_formulas (case_of 100) _ _ H)
    as (Ybus & Yf & Yt & E & H1 & H2 & H3 & H4 & _).
  exists Ybus, Yf, Yt. repeat split; assumption.
Defined.

Lemma getYbus_single_line_witness :
  Case.base_mva (case_of 100) <> 0
  /\ exists Ybus Yf Yt,
      getYbus (case_of 100) (Some [bus_n 0; bus_n 1])
              (Some [line (bus_n 0) (bus_n 1) 1 2 0 0 0])
      = Some (Ybus, Yf, Yt)
      /\ get Ybus 0 0 = (n1 / (ofR 1 + nj * ofR 2))%num
      /\ get Ybus 0 1 = (- (n1 / (ofR 1 + nj * ofR 2)))%num
      /\ get Ybus 1 0 = (- (n1 / (ofR 1 + nj * ofR 2)))%num
      /\ get Ybus 1 1 = (n1 / (ofR 1 + nj * ofR 2))%num.
Proof.
  assert (Case.base_mva (case_of 100) <> 0) as Hb by (simpl; lra).
  split; [exact Hb|].
  destruct (getYbus_single_line (case_of 100) (bus_n 0) (bus_n 1)
              (line (bus_n 0) (bus_n 1) 1 2 0 0 0) Hb
              eq_refl eq_refl eq_refl eq_refl eq_refl eq_refl
              eq_refl eq_refl eq_refl eq_refl eq_refl eq_refl)
    as (Ybus & Yf & Yt & E & _ & _ & H).
  exists Ybus, Yf, Yt. split; [exact E|exact H].
Defined.

Lemma Ybus_rows_sum_to_zero_witness :
  (Case.base_mva (case_of 100) <> 0
   /\ indexed [bus_n 0; bus_n 1] [line (bus_n 0) (bus_n 1) 0 1 0 0 0]
   /\ Forall no_shunt [bus_n 0; bus_n 1]
   /\ Forall plain_line [line (bus_n 0) (bus_n 1) 0 1 0 0 0])
  /\ exists Ybus Yf Yt,
      getYbus (case_of 100) (Some [bus_n 0; bus_n 1])
              (Some [line (bus_n 0) (bus_n 1) 0 1 0 0 0])
      = Some (Ybus, Yf, Yt)
      /\ forall i, row_sum Ybus i = n0.
Proof.
  assert (Case.base_mva (case_of 100) <> 0) as Hb by (simpl; lra).
  assert (indexed [bus_n 0; bus_n 1] [line (bus_n 0) (bus_n 1) 0 1 0 0 0])
    as Hi by (apply indexed_two; reflexivity).
  assert (Forall no_shunt [bus_n 0; bus_n 1]) as Hs
      by (repeat constructor).
  assert (Forall plain_line [line (bus_n 0) (bus_n 1) 0 1 0 0 0]) as Hp.
  { constructor; [|constructor]. unfold plain_line. simpl.
    split; [right; lra|]. split; [reflexivity|].
    split; [left|]; reflexivity. }
  split; [now repeat split|].
  exact (proj1 Ybus_rows_sum_to_zero (case_of 100) _ _ Hb Hi Hs Hp).
Defined.

Lemma getYbus_zero_impedance_witness :
  (indexed [bus_n 0; bus_n 1] [Branch.init (bus_n 0) (bus_n 1)]
   /\ Branch.r (Branch.init (bus_n 0) (bus_n 1)) = 0
   /\ Branch.x (Branch.init (bus_n 0) (bus_n 1)) = 0)
  /\ exists Ybus Yf Yt,
      getYbus (case_of 100) (Some [bus_n 0; bus_n 1])
              (Some [Branch.init (bus_n 0) (bus_n 1)])
      = Some (Ybus, Yf, Yt)
      /\ get Yf 0 0 = NonFinite /\ get Yt 0 1 = NonFinite
      /\ get Ybus 0 0 = NonFinite /\ get Ybus 1 1 = NonFinite.
Proof.
  assert (indexed [bus_n 0; bus_n 1] [Branch.init (bus_n 0) (bus_n 1)])
    as Hi by (apply indexed_two; reflexivity).
  split; [now repeat split|].
  exact (getYbus_zero_impedance (case_of 100) _ _ 0%nat
           (Branch.init (bus_n 0) (bus_n 1)) Hi eq_refl eq_refl eq_refl).
Defined.

Lemma makeB_negative_imaginary_witness :
  indexed [bus_n 0; bus_n 1] [line (bus_n 0) (bus_n 1) 1 2 3 0 0]
  /\ exists Bp Bpp,
      makeB (case_of 100) (Some [bus_n 0; bus_n 1])
            (Some [line (bus_n 0) (bus_n 1) 1 2 3 0 0]) "XB"
      = Some (Bp, Bpp).
Proof.
  assert (indexed [bus_n 0; bus_n 1] [line (bus_n 0) (bus_n 1) 1 2 3 0 0])
    as Hi by (apply indexed_two; reflexivity).
  split; [exact Hi|].
  destruct (makeB_negative_imaginary (case_of 100) _ _ "XB"
              (or_introl eq_refl) Hi)
    as (Bp & Bpp & _ & _ & _ & _ & _ & _ & E & _).
  exists Bp, Bpp. exact E.
Defined.


Lemma d2Sbus_dV2_transpose_witness :
  Forall (fun v => v <> C0) [C1; C1]
  /\ exists Gaa Gav Gva Gvv,
      d2Sbus_dV2 (case_of 100) Y_diag [C1; C1] [n1; n1]
      = Some (Gaa, Gav, Gva, Gvv)
      /\ forall i j, get Gav i j = get Gva j i.
Proof.
  assert (Forall (fun v => v <> C0) [C1; C1]) as Hv
      by (repeat constructor; apply C1_neq_0).
  split; [exact Hv|].
  destruct (d2Sbus_dV2_transpose (case_of 100) Y_diag [C1; C1] [n1; n1]
              eq_refl eq_refl eq_refl Hv)
    as (Gaa & Gav & Gva & Gvv & E & _ & _ & H).
  exists Gaa, Gav, Gva, Gvv. split; assumption.
Defined.

Lemma d2Ibr_dV2_blocks_witness :
  Forall (fun v => v <> C0) [C1; C1]
  /\ exists Haa Hav Hva Hvv,
      d2Ibr_dV2 (case_of 100)
                (mkSM 1 2 [(0%nat, 0%nat, n1); (0%nat, 1%nat, (- n1)%num)])
                [C1; C1] [n1]
      = Some (Haa, Hav, Hva, Hvv)
      /\ (forall i j, get Hvv i j = n0) /\ Hav = Hva.
Proof.
  assert (Forall (fun v => v <> C0) [C1; C1]) as Hv
      by (repeat constructor; apply C1_neq_0).
  split; [exact Hv|].
  destruct (d2Ibr_dV2_blocks (case_of 100)
              (mkSM 1 2 [(0%nat, 0%nat, n1); (0%nat, 1%nat, (- n1)%num)])
              [C1; C1] [n1] eq_refl eq_refl Hv)
    as (Haa & Hav & Hva & Hvv & E & _ & _ & H0 & HE & _).
  exists Haa, Hav, Hva, Hvv. repeat split; assumption.
Defined.

(* ================================================================== *)
(** ** Indexing: [index_buses], [index_branches] *)











Lemma index_buses_fold :
  forall (g : nat -> Bus.t -> Bus.t) (L : list (nat * nat)) self,
    fold_left (fun c ib =>
                 with_buses c (update_nth (Case.buses c) (snd ib)
                                          (g (fst ib)))) L self
    = with_buses self
        (fold_left (fun l ih => update_nth l (snd ih) (g (fst ih))) L
                   (Case.buses self)).
Proof.
  induction L as [|ih L IH]; intros self; simpl.
  - destruct self; reflexivity.
  - rewrite IH. reflexivity.
Qed.

Lemma index_branches_fold :
  forall (g : nat -> Branch.t nat -> Branch.t nat) (L : list (nat * nat)) self,
    fold_left (fun c il =>
                 with_branches c (update_nth (Case.branches c) (snd il)
                                             (g (fst il)))) L self
    = with_branches self
        (fold_left (fun l ih => update_nth l (snd ih) (g (fst ih))) L
                   (Case.branches self)).
Proof.
  induction L as [|ih L IH]; intros self; simpl.
  - destruct self; reflexivity.
  - rewrite IH. reflexivity.
Qed.

(** The buses after [index_buses(buses, start)] for a list [buses] of
    distinct buses. *)
Lemma index_buses_buses : forall self bs start,
    Case.buses (index_buses self (Some bs) start)
    = fold_left (fun l ih => update_nth l (snd ih)
                               (fun b => Bus.set_i b (start + fst ih)))
                (enumerate bs) (Case.buses self).
Proof.
  intros self bs start. unfold index_buses.
  rewrite (index_buses_fold (fun i b => Bus.set_i b (start + i))).
  reflexivity.
Qed.

Lemma index_branches_branches : forall self ls start,
    Case.branches (index_branches self (Some ls) start)
    = fold_left (fun l ih => update_nth l (snd ih)
                               (fun b => Branch.set_i b (start + fst ih)))
                (enumerate ls) (Case.branches self).
Proof.
  intros self ls start. unfold index_branches.
  rewrite (index_branches_fold (fun i b => Branch.set_i b (start + i))).
  reflexivity.
Qed.



(* ================================================================== *)
(** ** [getYbus]: branches that end outside the bus list *)




(* ================================================================== *)
(** ** [getYbus]: symmetry *)







(* ================================================================== *)
(** ** [getYbus]: branches out of service *)






(* ================================================================== *)
(** ** [makeB]: row sums of B' *)








(* ================================================================== *)
(** ** [makeBdc]: what it returns *)





















(* ================================================================== *)
(** ** Bus injections *)











(* ================================================================== *)
(** ** [sort_generators] *)











(* ================================================================== *)
(** ** [make_admittance_matrix] *)











(* ================================================================== *)
(** ** [make_susceptance_matrix] *)










(* ================================================================== *)
(** ** Products with diagonal matrices *)














(* ================================================================== *)
(** ** Steps of the derivative functions, with what they store *)








(* ================================================================== *)
(** ** [dIbr_dV] *)










(* ================================================================== *)
(** ** Symmetry of the second derivatives *)









(* ================================================================== *)
(** ** [dSbus_dV] *)








(* ================================================================== *)
(** ** [pf_solution]: what it writes *)





















(* ================================================================== *)
(** ** [makeBdc]: branches of zero reactance *)

(** The guard of [make_susceptance_matrix], which [makeBdc] lacks: a
    branch of zero reactance gets the susceptance [1e12]. *)
Lemma b_branch_zero_reactance : forall e,
    Ysus.x e = 0 -> Ysus.ratio e = 0 -> Ysus.b_branch e = 1e12.
Proof.
  intros e Hx Hr. unfold Ysus.b_branch. rewrite Hx, Hr.
  now rewrite Rneb_refl.
Qed.




(* ================================================================== *)
(** ** [pf_solution]: the dispatch of the generators *)










